(** * CommandManager: the message parser and its history of opcodes

    A shallow embedding of [src/CommandManager.cpp]: [updateHistory] and
    [parseCommand], with the pieces of the C++ standard library they call
    ([std::string] members, [std::stoi], [std::getline], [operator<<] on
    [int]).  [std::cout] is the text written so far, a [string];
    [std::deque<std::string>] is a [list string] whose head is the front. *)

From Stdlib Require Import ZArith Lia List Bool Ascii String DecimalString.
From Stdlib Require DecimalPos DecimalZ.
Import ListNotations.

#[local] Open Scope string_scope.
#[local] Open Scope Z_scope.

(** ** [std::string] members used by the parser *)

Module Str.

(** The line terminator written by ["\n"]. *)
Definition nl : string := String "010"%char "".

Definition empty (s : string) : bool :=
  match s with "" => true | String _ _ => false end.

(** [s.back()], defined on a non-empty string only. *)
Fixpoint back (s : string) : option ascii :=
  match s with
  | "" => None
  | String c "" => Some c
  | String _ r => back r
  end.

(** [s.pop_back()]. *)
Fixpoint pop_back (s : string) : string :=
  match s with
  | "" => ""
  | String _ "" => ""
  | String c r => String c (pop_back r)
  end.

(** [s.substr(pos, n)] and [s.substr(pos)], for [pos <= s.length()]. *)
Definition substr (s : string) (pos n : nat) : string := substring pos n s.

Definition substr_from (s : string) (pos : nat) : string :=
  substring pos (String.length s - pos) s.

(** [back() == c] on a string already known to be non-empty. *)
Definition back_is (s : string) (c : ascii) : bool :=
  match back s with
  | Some d => Ascii.eqb d c
  | None => false
  end.

End Str.

(** ** The history ring: [updateHistory] *)

Definition History := list string.

Definition pop_back_deque (h : History) : History := removelast h.

Definition updateHistory (strHistory : History) (strOpCode : string) : History :=
  let strHistory := strOpCode :: strHistory in
  if (5 <? List.length strHistory)%nat then pop_back_deque strHistory else strHistory.

(** ** [std::stoi] *)

Module Stoi.

(** [int] is 32 bits wide, as with Visual Studio 2019 (where [long] is too)
    and on every mainstream platform. *)
Definition INT_MAX : Z := 2147483647.
Definition INT_MIN : Z := -2147483648.

Inductive exception := invalid_argument | out_of_range.

(** [isspace] in the "C" locale. *)
Definition isspace (c : ascii) : bool :=
  match c with
  | " "%char | "009"%char | "010"%char | "011"%char | "012"%char | "013"%char => true
  | _ => false
  end.

(** The value of a decimal digit, [c - '0'], and no value for another
    character. *)
Definition digit (c : ascii) : option Z :=
  let code := Z.of_N (N_of_ascii c) in
  if (48 <=? code) && (code <=? 57) then Some (code - 48) else None.

Fixpoint skip_space (s : string) : string :=
  match s with
  | String c r => if isspace c then skip_space r else s
  | "" => ""
  end.

(** The optional sign: whether it was a minus, and what follows it. *)
Definition sign (s : string) : bool * string :=
  match s with
  | String "-"%char r => (true, r)
  | String "+"%char r => (false, r)
  | _ => (false, s)
  end.

(** The digit loop of [strtol] in base 10: it stops at the first character
    that is not a digit and leaves the rest of the string unread. *)
Fixpoint accumulate (acc : Z) (s : string) : Z :=
  match s with
  | String c r =>
      match digit c with
      | Some d => accumulate (10 * acc + d) r
      | None => acc
      end
  | "" => acc
  end.

Definition starts_with_digit (s : string) : bool :=
  match s with
  | String c _ => match digit c with Some _ => true | None => false end
  | "" => false
  end.

(** [std::stoi(str)]: [strtol(str.c_str(), &end, 10)], [invalid_argument]
    when no digit was converted, [out_of_range] when the value does not fit
    an [int]. *)
Definition stoi (str : string) : exception + Z :=
  let (minus, body) := sign (skip_space str) in
  if starts_with_digit body then
    let v := accumulate 0 body in
    let n := if minus then - v else v in
    if (INT_MIN <=? n) && (n <=? INT_MAX) then inr n else inl out_of_range
  else inl invalid_argument.

End Stoi.

(** ** [operator<<] on [int]: the decimal numeral, with [-] for a negative *)

Definition put_int (n : Z) : string := NilZero.string_of_int (Z.to_int n).

(** ** [std::getline(stream, token, ',')] over the message content *)

Module Tokens.

(** One extraction from a stream that is not at its end: the characters up
    to the first comma, and the stream after that comma (or at its end). *)
Fixpoint extract (s : string) : string * string :=
  match s with
  | "" => ("", "")
  | String c r =>
      if Ascii.eqb c ","%char then ("", r)
      else let (tok, rest) := extract r in (String c tok, rest)
  end.

(** [getline] fails, and the [while] loop ends, when nothing is left. *)
Definition getline (s : string) : option (string * string) :=
  match s with
  | "" => None
  | String _ _ => Some (extract s)
  end.

(** The [while] loop: every extracted token that is not empty is pushed to
    the back of [vecTokens].  Each turn consumes at least one character, so
    [fuel] above the length of the stream is never used up. *)
Fixpoint loop (fuel : nat) (s : string) (vecTokens : list string) : list string :=
  match fuel with
  | O => vecTokens
  | S fuel =>
      match getline s with
      | None => vecTokens
      | Some (strToken, rest) =>
          loop fuel rest
            (if Str.empty strToken then vecTokens else vecTokens ++ [strToken])
      end
  end.

Definition tokenise (strMessageContent : string) : list string :=
  loop (S (String.length strMessageContent)) strMessageContent [].

End Tokens.

(** ** [parseCommand] *)

(** How the dispatch chain of [parseCommand] is left: by the early [return]
    of the [D_USR_FLD_] branch, or at the end of a branch, with what was
    written and the value of [bRecognised]. *)
Inductive flow :=
| Return (out : string)
| Fallthrough (out : string) (bRecognised : bool).

(** The loop of the [HISTORY___] branch: one line per entry, front first. *)
Fixpoint print_history (strHistory : History) : string :=
  match strHistory with
  | [] => ""
  | op :: rest => op ++ Str.nl ++ print_history rest
  end.

Section Parser.

(** [double], [std::stod] and [operator<<] on [double] belong to the
    platform: the parser is defined over any choice of them. *)
Variable double : Type.
Variable stod : string -> Stoi.exception + double.
Variable put_double : double -> string.

(** One turn of the pairwise loop over [vecTokens]. *)
Definition print_pair (name value : string) : string :=
  if (15 <? String.length name)%nat then
    "Parameter name too long: " ++ name ++ Str.nl
  else
    match stod value with
    | inr dblParmValue => name ++ " = " ++ put_double dblParmValue ++ Str.nl
    | inl _ => "Invalid parameter value for parameter: " ++ name ++ Str.nl
    end.

(** [for (i = 0; i + 1 < vecTokens.size(); i += 2)]. *)
Fixpoint print_pairs (vecTokens : list string) : string :=
  match vecTokens with
  | name :: value :: rest => print_pair name value ++ print_pairs rest
  | _ => ""
  end.

Definition dispatch (strOpCode strMessageContent : string) (strHistory : History) : flow :=
  if (strOpCode =? "RUN_NO____")%string then
    Fallthrough
      match Stoi.stoi strMessageContent with
      | inr iRunNumber => "Run number: " ++ put_int iRunNumber ++ Str.nl
      | inl _ => "Invalid Run number: " ++ strMessageContent ++ Str.nl
      end true
  else if (strOpCode =? "POLAR_NO__")%string then
    Fallthrough
      match Stoi.stoi strMessageContent with
      | inr iPolarNumber => "Polar number: " ++ put_int iPolarNumber ++ Str.nl
      | inl _ => "Invalid Polar number: " ++ strMessageContent ++ Str.nl
      end true
  else if (strOpCode =? "USR_MSG___")%string then
    Fallthrough (strMessageContent ++ Str.nl) true
  else if (strOpCode =? "D_USR_FLD_")%string then
    let vecTokens := Tokens.tokenise strMessageContent in
    if negb (Nat.eqb (Nat.modulo (List.length vecTokens) 2) 0) then Return ""
    else Fallthrough ("Parameters:" ++ Str.nl ++ print_pairs vecTokens) true
  else if (strOpCode =? "HISTORY___")%string then
    Fallthrough (print_history strHistory) false
  else Fallthrough "" false.

(** [parseCommand(strInput, strHistory)]: what it writes to [std::cout] and
    the history it leaves. *)
Definition parseCommand (strInput : string) (strHistory : History) : string * History :=
  if Str.empty strInput || negb (Str.back_is strInput "#") then ("", strHistory)
  else if (11 <=? String.length strInput)%nat then
    let strOpCode := Str.substr strInput 0 10 in
    let strMessageContent := Str.substr_from strInput 10 in
    let strMessageContent :=
      if negb (Str.empty strMessageContent) && Str.back_is strMessageContent "#"
      then Str.pop_back strMessageContent else strMessageContent in
    match dispatch strOpCode strMessageContent strHistory with
    | Return out => (out, strHistory)
    | Fallthrough out bRecognised =>
        (out, if bRecognised then updateHistory strHistory strOpCode else strHistory)
    end
  else ("", strHistory).

(** A sequence of calls on one history, as [main] makes them: everything
    written, and the history after the last call. *)
Fixpoint parseAll (inputs : list string) (strHistory : History) : string * History :=
  match inputs with
  | [] => ("", strHistory)
  | strInput :: rest =>
      let (out, strHistory) := parseCommand strInput strHistory in
      let (out', strHistory) := parseAll rest strHistory in
      (out ++ out', strHistory)
  end.

(** The messages [main] sends before it reads from the terminal. *)
Definition examples : list string :=
  ["RUN_NO____123#"; "POLAR_NO__2#"; "USR_MSG___Start Tunnel#";
   "D_USR_FLD_Parameter1,0.004947,Parameter2,0.203044,#";
   "RUN_NO____124#"; "POLAR_NO__3#";
   "D_USR_FLD_Parameter3,0.02347,Parameter4,0.12343044,ParameterT,1.12345,#";
   "HISTORY___#"; "UNKNOWN___test#"; "RUN_NO____ABC#"; "RUN_NO____123"].

Definition banner : string :=
  "Running example Command Manager messages..." ++ Str.nl ++ Str.nl.

Definition prompt : string :=
  "Enter command messages (type EXIT to quit):" ++ Str.nl.

(** The [while (true)] loop of [main] over the lines [std::getline] reads
    from [std::cin]: a line that is [EXIT] breaks out, any other line is
    parsed.  When the lines run out [getline] fails, the loop has no test for
    that and goes round for ever: [None] stands for a run that never
    returns. *)
Fixpoint interact (cin : list string) (strHistory : History) : option (string * History) :=
  match cin with
  | [] => None
  | strUserInput :: rest =>
      if (strUserInput =? "EXIT")%string then Some ("", strHistory)
      else
        let (out, strHistory) := parseCommand strUserInput strHistory in
        match interact rest strHistory with
        | Some (out', strHistory) => Some (out ++ out', strHistory)
        | None => None
        end
  end.

(** [main]: what a run that returns has written to [std::cout]. *)
Definition main (cin : list string) : option string :=
  let (out, strHistory) := parseAll examples [] in
  match interact cin strHistory with
  | Some (out', _) => Some (banner ++ out ++ prompt ++ out')
  | None => None
  end.

End Parser.

Arguments print_pair {double}.
Arguments print_pairs {double}.
Arguments dispatch {double}.
Arguments parseCommand {double}.
Arguments parseAll {double}.
Arguments interact {double}.
Arguments main {double}.

(** ** A reference platform for [double]

    An idealised instance of the three platform parameters, used to run the
    parser on concrete messages: a [double] is an exact decimal
    [(-1)^negative * mantissa * 10^exponent] (no binary rounding and no range
    error), [stod] reads the decimal literals of [strtod] (white space, sign,
    digits with an optional point, optional exponent), and [put_double] is
    the default stream format ([%g] with six significant digits).  It agrees
    with IEEE doubles on literals of at most six significant digits in the
    normal range; none of the theorems below depends on it. *)

Module DecimalDouble.

Record t := mk { negative : bool; mantissa : Z; exponent : Z }.

(** A run of digits: its value on top of [acc], its length, what follows. *)
Fixpoint digits (acc : Z) (s : string) : Z * nat * string :=
  match s with
  | String c r =>
      match Stoi.digit c with
      | Some d => let '(v, n, rest) := digits (10 * acc + d) r in (v, S n, rest)
      | None => (acc, O, s)
      end
  | "" => (acc, O, "")
  end.

Definition exponent_part (s : string) : Z :=
  match s with
  | String c r =>
      if Ascii.eqb c "e"%char || Ascii.eqb c "E"%char then
        let (minus, body) := Stoi.sign r in
        if Stoi.starts_with_digit body then
          let v := Stoi.accumulate 0 body in if minus then - v else v
        else 0
      else 0
  | "" => 0
  end.

Definition stod (str : string) : Stoi.exception + t :=
  let (minus, body) := Stoi.sign (Stoi.skip_space str) in
  let '(ip, ni, after_int) := digits 0 body in
  let '(m, nf, after_frac) :=
    match after_int with
    | String "."%char r => digits ip r
    | _ => (ip, O, after_int)
    end in
  if Nat.eqb (ni + nf) 0 then inl Stoi.invalid_argument
  else inr (mk minus m (exponent_part after_frac - Z.of_nat nf)).

Definition ndigits (m : Z) : nat := String.length (put_int m).

(** [m * 10^e] rounded to six significant digits, ties to even: the six
    digits as a number and the decimal exponent of the first one. *)
Definition round6 (m e : Z) : Z * Z :=
  let n := ndigits m in
  let X := e + Z.of_nat n - 1 in
  if (n <=? 6)%nat then (m * 10 ^ Z.of_nat (6 - n), X)
  else
    let p := 10 ^ Z.of_nat (n - 6) in
    let q := m / p in
    let r := m mod p in
    let up := (p <? 2 * r) || ((p =? 2 * r) && Z.odd q) in
    let q := if up then q + 1 else q in
    if q =? 1000000 then (100000, X + 1) else (q, X).

Fixpoint strip_zeros (s : string) : string :=
  match s with
  | "" => ""
  | String c r =>
      let r := strip_zeros r in
      if Ascii.eqb c "0"%char && Str.empty r then "" else String c r
  end.

Fixpoint zeros (n : nat) : string :=
  match n with O => "" | S n => String "0"%char (zeros n) end.

Definition with_point (int frac : string) : string :=
  if Str.empty frac then int else int ++ "." ++ frac.

Definition put_double (d : t) : string :=
  let sgn := if negative d then "-" else "" in
  if mantissa d =? 0 then sgn ++ "0"
  else
    let (q, X) := round6 (mantissa d) (exponent d) in
    let ds := put_int q in
    if (X <? -4) || (6 <=? X) then
      sgn ++ with_point (substring 0 1 ds) (strip_zeros (substring 1 5 ds))
          ++ "e" ++ (if X <? 0 then "-" else "+")
          ++ (if Z.abs X <? 10 then "0" else "") ++ put_int (Z.abs X)
    else if X <? 0 then
      sgn ++ "0." ++ zeros (Z.to_nat (- X - 1)) ++ strip_zeros ds
    else
      let k := S (Z.to_nat X) in
      sgn ++ with_point (substring 0 k ds) (strip_zeros (substring k (6 - k) ds)).

Definition parseCommand := parseCommand stod put_double.
Definition parseAll := parseAll stod put_double.

End DecimalDouble.

(** ** The vocabulary of the specification *)

(** A well-framed message: the opcode, the payload, the sentinel. *)
Definition frame (opcode payload : string) : string := opcode ++ payload ++ "#".

(** One output line. *)
Definition line (s : string) : string := s ++ Str.nl.

Fixpoint lines (l : list string) : string :=
  match l with
  | [] => ""
  | s :: rest => line s ++ lines rest
  end.

(** The opcodes that may be recorded. *)
Definition data_opcode (op : string) : Prop :=
  op = "RUN_NO____" \/ op = "POLAR_NO__" \/ op = "USR_MSG___" \/ op = "D_USR_FLD_".

Definition data_opcodeb (op : string) : bool :=
  ((op =? "RUN_NO____") || (op =? "POLAR_NO__") || (op =? "USR_MSG___")
   || (op =? "D_USR_FLD_"))%string.

(** The two integer opcodes, each with the prefix of its success line and
    the prefix of its error line. *)
Inductive number_opcode : string -> string -> string -> Prop :=
| number_run : number_opcode "RUN_NO____" "Run number: " "Invalid Run number: "
| number_polar : number_opcode "POLAR_NO__" "Polar number: " "Invalid Polar number: ".

(** What an integer branch writes, given its two prefixes. *)
Definition print_number (success invalid strMessageContent : string) : string :=
  match Stoi.stoi strMessageContent with
  | inr n => success ++ put_int n ++ Str.nl
  | inl _ => invalid ++ strMessageContent ++ Str.nl
  end.

Fixpoint all_chars (p : ascii -> bool) (s : string) : bool :=
  match s with
  | "" => true
  | String c r => p c && all_chars p r
  end.

Definition is_digit (c : ascii) : bool :=
  match Stoi.digit c with Some _ => true | None => false end.

Definition in_int_range (n : Z) : bool := (Stoi.INT_MIN <=? n) && (n <=? Stoi.INT_MAX).

(** The value of a string of decimal digits, by position. *)
Fixpoint numeral_value (ds : string) : Z :=
  match ds with
  | "" => 0
  | String c r =>
      match Stoi.digit c with Some d => d | None => 0 end * 10 ^ Z.of_nat (String.length r)
      + numeral_value r
  end.

(** The strict reading of an integer payload: an optional sign, then decimal
    digits up to the end of the payload, the value fitting an [int]. *)
Definition strict_int (payload : string) : bool :=
  let (minus, ds) := Stoi.sign payload in
  negb (Str.empty ds) && all_chars is_digit ds
  && in_int_range (if minus then - numeral_value ds else numeral_value ds).

(** The lenient reading: white space, an optional sign, a run of digits that
    ends at the first character that is not one, and anything after it. *)
Inductive reads_as (payload : string) (n : Z) : Prop :=
| reads_as_intro (ws sg ds rest : string) :
    payload = ws ++ sg ++ ds ++ rest ->
    all_chars Stoi.isspace ws = true ->
    sg = "" \/ sg = "+" \/ sg = "-" ->
    ds <> "" ->
    all_chars is_digit ds = true ->
    Stoi.starts_with_digit rest = false ->
    n = (if (sg =? "-")%string then - numeral_value ds else numeral_value ds) ->
    Stoi.INT_MIN <= n <= Stoi.INT_MAX ->
    reads_as payload n.

(** The payload split on every comma, empty tokens included. *)
Fixpoint split_commas (s : string) : list string :=
  match s with
  | "" => [""]
  | String c r =>
      if Ascii.eqb c ","%char then "" :: split_commas r
      else
        match split_commas r with
        | tok :: toks => String c tok :: toks
        | [] => [String c ""]
        end
  end.

Definition nonempty_tokens (payload : string) : list string :=
  filter (fun tok => negb (Str.empty tok)) (split_commas payload).

(** What the token loop pushes for one extracted token. *)
Definition kept (tok : string) : list string :=
  if Str.empty tok then [] else [tok].

(** The parameter names of a token list: the tokens at even positions. *)
Fixpoint names (toks : list string) : list string :=
  match toks with
  | name :: _ :: rest => name :: names rest
  | _ => []
  end.

Definition too_long (name : string) : bool := (15 <? String.length name)%nat.

Definition only_commas (payload : string) : bool :=
  all_chars (fun c => Ascii.eqb c ","%char) payload.

(** A message whose opcode gets recorded: a data opcode, and for
    [D_USR_FLD_] an even number of tokens. *)
Definition recorded (msg : string * string) : bool :=
  let (op, payload) := msg in
  data_opcodeb op
  && (negb (op =? "D_USR_FLD_")%string
      || Nat.even (List.length (nonempty_tokens payload))).

Definition frame_msg (msg : string * string) : string := frame (fst msg) (snd msg).

(** A string without a comma, and a token: a non-empty one. *)
Definition comma_free (s : string) : bool :=
  all_chars (fun c => negb (Ascii.eqb c ","%char)) s.

Definition token (s : string) : bool := negb (Str.empty s) && comma_free s.

(** The framing test of [parseCommand], and the two parts of an input that
    passes it. *)
Definition well_framed (strInput : string) : bool :=
  negb (Str.empty strInput) && Str.back_is strInput "#"
  && (11 <=? String.length strInput)%nat.

Definition opcode_of (strInput : string) : string := Str.substr strInput 0 10.

Definition payload_of (strInput : string) : string :=
  Str.pop_back (Str.substr_from strInput 10).

(** What a call adds to the history: the opcode of a well-framed recorded
    message, and nothing otherwise. *)
Definition logged (strInput : string) : list string :=
  if well_framed strInput && recorded (opcode_of strInput, payload_of strInput)
  then [opcode_of strInput] else [].

(** Output made of whole lines: nothing, or text that ends in a newline. *)
Definition whole_lines (out : string) : Prop :=
  out = "" \/ exists body, out = line body.

(** A parameter list on the wire, every token followed by a comma. *)
Fixpoint encode_fields (fields : list (string * string)) : string :=
  match fields with
  | [] => ""
  | (name, value) :: rest => name ++ "," ++ value ++ "," ++ encode_fields rest
  end.

(** The history the driver's example messages leave. *)
Definition example_history : History :=
  ["RUN_NO____"; "D_USR_FLD_"; "POLAR_NO__"; "RUN_NO____"; "D_USR_FLD_"].

(** ** [std::stod] and [operator<<] on [double]

    The library functions behind the value of a parameter pair, from their
    documentation: [std::stod] is [strtod] with [invalid_argument] when no
    conversion is made and [out_of_range] on a range error; [strtod] skips
    white space, takes the longest prefix that is a floating-point literal
    (decimal, hexadecimal, [inf]/[infinity], [nan]/[nan(...)], letters in
    either case) and rounds its value to the nearest binary64, ties to even;
    the stream writes a [double] as [%g] does with six significant digits.
    Where ISO C leaves a choice the model follows glibc: a result below the
    normal range that is not exact is a range error, and a NaN is written
    [nan] or [-nan]. *)

Module Stod.

(** A binary64 value; a finite non-zero one is [m * 2^e], [0 < m < 2^53],
    [-1074 <= e <= 971]. *)
Inductive double :=
| Zero (neg : bool)
| Finite (neg : bool) (m e : Z)
| Inf (neg : bool)
| NaN (neg : bool).

(** What a literal says: [mant * 10^exp10], [mant * 2^exp2], an infinity or
    a NaN, with its sign. *)
Inductive literal :=
| Decimal (neg : bool) (mant exp10 : Z)
| Hexadecimal (neg : bool) (mant exp2 : Z)
| Infinity (neg : bool)
| NotANumber (neg : bool).

Definition code (c : ascii) : Z := Z.of_N (N_of_ascii c).

Definition between (lo hi x : Z) : bool := (lo <=? x) && (x <=? hi).

(** [tolower] in the "C" locale. *)
Definition lower (c : ascii) : ascii :=
  if between 65 90 (code c) then ascii_of_N (N_of_ascii c + 32) else c.

Definition hex_digit (c : ascii) : option Z :=
  if between 48 57 (code c) then Some (code c - 48)
  else if between 97 102 (code (lower c)) then Some (code (lower c) - 87)
  else None.

(** The characters allowed between the parentheses of [nan(...)]: digits,
    letters and the underscore. *)
Definition nchar (c : ascii) : bool :=
  between 48 57 (code c) || between 97 122 (code (lower c)) || (code c =? 95).

(** [c] is the character [x], in either case. *)
Definition same (c : ascii) (x : ascii) : bool := Ascii.eqb (lower c) x.

(** Where the scanner is inside a literal.  [m] is the significand read so
    far, [k] the number of its digits after the point, [e] the exponent
    digits read so far and [eneg] the sign of the exponent. *)
Inductive state :=
| Start
| Signed (neg : bool)
| LeadZero (neg : bool)
| IntDigits (neg : bool) (m : Z)
| Point (neg : bool)
| FracDigits (neg : bool) (m k : Z)
| ExpMark (neg : bool) (m k : Z)
| ExpSign (neg : bool) (m k : Z) (eneg : bool)
| ExpDigits (neg : bool) (m k : Z) (eneg : bool) (e : Z)
| HexMark (neg : bool)
| HexInt (neg : bool) (m : Z)
| HexPoint (neg : bool)
| HexFrac (neg : bool) (m k : Z)
| BinMark (neg : bool) (m k : Z)
| BinSign (neg : bool) (m k : Z) (eneg : bool)
| BinDigits (neg : bool) (m k : Z) (eneg : bool) (e : Z)
| Word (todo : string) (next : state)
| InfShort (neg : bool)
| InfLong (neg : bool)
| NanWord (neg : bool)
| NanSeq (neg : bool)
| NanDone (neg : bool).

(** The first character after the optional sign. *)
Definition first (neg : bool) (c : ascii) : option state :=
  match Stoi.digit c with
  | Some d => Some (if d =? 0 then LeadZero neg else IntDigits neg d)
  | None =>
      if same c "." then Some (Point neg)
      else if same c "i" then Some (Word "nf" (InfShort neg))
      else if same c "n" then Some (Word "an" (NanWord neg))
      else None
  end.

(** After decimal digits with no point yet. *)
Definition after_int (neg : bool) (m : Z) (c : ascii) : option state :=
  match Stoi.digit c with
  | Some d => Some (IntDigits neg (10 * m + d))
  | None =>
      if same c "." then Some (FracDigits neg m 0)
      else if same c "e" then Some (ExpMark neg m 0)
      else None
  end.

(** One character further, or [None] when the character cannot continue a
    literal. *)
Definition step (st : state) (c : ascii) : option state :=
  match st with
  | Start =>
      if Stoi.isspace c then Some Start
      else if same c "+" then Some (Signed false)
      else if same c "-" then Some (Signed true)
      else first false c
  | Signed neg => first neg c
  | LeadZero neg => if same c "x" then Some (HexMark neg) else after_int neg 0 c
  | IntDigits neg m => after_int neg m c
  | Point neg =>
      match Stoi.digit c with
      | Some d => Some (FracDigits neg d 1)
      | None => None
      end
  | FracDigits neg m k =>
      match Stoi.digit c with
      | Some d => Some (FracDigits neg (10 * m + d) (k + 1))
      | None => if same c "e" then Some (ExpMark neg m k) else None
      end
  | ExpMark neg m k =>
      match Stoi.digit c with
      | Some d => Some (ExpDigits neg m k false d)
      | None =>
          if same c "+" then Some (ExpSign neg m k false)
          else if same c "-" then Some (ExpSign neg m k true)
          else None
      end
  | ExpSign neg m k eneg =>
      match Stoi.digit c with
      | Some d => Some (ExpDigits neg m k eneg d)
      | None => None
      end
  | ExpDigits neg m k eneg e =>
      match Stoi.digit c with
      | Some d => Some (ExpDigits neg m k eneg (10 * e + d))
      | None => None
      end
  | HexMark neg =>
      match hex_digit c with
      | Some d => Some (HexInt neg d)
      | None => if same c "." then Some (HexPoint neg) else None
      end
  | HexInt neg m =>
      match hex_digit c with
      | Some d => Some (HexInt neg (16 * m + d))
      | None =>
          if same c "." then Some (HexFrac neg m 0)
          else if same c "p" then Some (BinMark neg m 0)
          else None
      end
  | HexPoint neg =>
      match hex_digit c with
      | Some d => Some (HexFrac neg d 1)
      | None => None
      end
  | HexFrac neg m k =>
      match hex_digit c with
      | Some d => Some (HexFrac neg (16 * m + d) (k + 1))
      | None => if same c "p" then Some (BinMark neg m k) else None
      end
  | BinMark neg m k =>
      match Stoi.digit c with
      | Some d => Some (BinDigits neg m k false d)
      | None =>
          if same c "+" then Some (BinSign neg m k false)
          else if same c "-" then Some (BinSign neg m k true)
          else None
      end
  | BinSign neg m k eneg =>
      match Stoi.digit c with
      | Some d => Some (BinDigits neg m k eneg d)
      | None => None
      end
  | BinDigits neg m k eneg e =>
      match Stoi.digit c with
      | Some d => Some (BinDigits neg m k eneg (10 * e + d))
      | None => None
      end
  | Word todo next =>
      match todo with
      | String x "" => if same c x then Some next else None
      | String x rest => if same c x then Some (Word rest next) else None
      | "" => None
      end
  | InfShort neg => if same c "i" then Some (Word "nity" (InfLong neg)) else None
  | InfLong _ => None
  | NanWord neg => if same c "(" then Some (NanSeq neg) else None
  | NanSeq neg =>
      if nchar c then Some (NanSeq neg)
      else if same c ")" then Some (NanDone neg)
      else None
  | NanDone _ => None
  end.

(** The literal read when the scanner stops in [st], if what was read up to
    there is a whole literal. *)
Definition reading (st : state) : option literal :=
  match st with
  | LeadZero neg => Some (Decimal neg 0 0)
  | IntDigits neg m => Some (Decimal neg m 0)
  | FracDigits neg m k => Some (Decimal neg m (- k))
  | ExpDigits neg m k eneg e => Some (Decimal neg m ((if eneg then - e else e) - k))
  | HexInt neg m => Some (Hexadecimal neg m 0)
  | HexFrac neg m k => Some (Hexadecimal neg m (- (4 * k)))
  | BinDigits neg m k eneg e =>
      Some (Hexadecimal neg m ((if eneg then - e else e) - 4 * k))
  | InfShort neg | InfLong neg => Some (Infinity neg)
  | NanWord neg | NanDone neg => Some (NotANumber neg)
  | _ => None
  end.




(** [strtod]'s subject sequence: the scanner goes on as far as it can and
    keeps the last place where what it had read was a whole literal, with
    the rest of the string from there. *)
Fixpoint munch (st : state) (s : string) (best : option (literal * string))
  : option (literal * string) :=
  let best := match reading st with Some lit => Some (lit, s) | None => best end in
  match s with
  | "" => best
  | String c r =>
      match step st c with
      | Some st' => munch st' r best
      | None => best
      end
  end.

Definition scan (str : string) : option (literal * string) := munch Start str None.

Definition pow2 (n : Z) : Z := 2 ^ n.

(** [n / d] rounded to the nearest integer, ties to even, with whether the
    quotient was exact. *)
Definition round_even (n d : Z) : Z * bool :=
  let q := n / d in
  let r := n mod d in
  let up := (d <? 2 * r) || ((d =? 2 * r) && Z.odd q) in
  (if up then q + 1 else q, r =? 0).

(** The positive rational [n / d] as a binary64: rounded to 53 bits, or to
    a multiple of [2^-1074] below the normal range; [out_of_range] when the
    result is above the largest finite value, or below the normal range and
    not exact. *)
Definition to_double (neg : bool) (n d : Z) : Stoi.exception + double :=
  let l := Z.log2 n - Z.log2 d in
  let above := if 0 <=? l then d * pow2 l <=? n else d <=? n * pow2 (- l) in
  let b := if above then l else l - 1 in
  let e := Z.max (b - 52) (-1074) in
  let (m, exact) :=
    if e <? 0 then round_even (n * pow2 (- e)) d else round_even n (d * pow2 e) in
  let (m, e) := if m =? pow2 53 then (pow2 52, e + 1) else (m, e) in
  if 971 <? e then inl Stoi.out_of_range
  else if (m <? pow2 52) && negb exact then inl Stoi.out_of_range
  else inr (Finite neg m e).

Definition ndigits (n : Z) : Z := Z.of_nat (String.length (put_int n)).

(** The value of a literal as a [double].  A non-zero literal so large or so
    small that its place is decided without computing it ([10^400] and
    [2^2000] are far outside the range) is settled first. *)
Definition convert (lit : literal) : Stoi.exception + double :=
  match lit with
  | Decimal neg m x =>
      if m =? 0 then inr (Zero neg)
      else if (400 <? ndigits m + x) || (ndigits m + x <? -400)
      then inl Stoi.out_of_range
      else if x <? 0 then to_double neg m (10 ^ (- x))
      else to_double neg (m * 10 ^ x) 1
  | Hexadecimal neg m x =>
      if m =? 0 then inr (Zero neg)
      else if (2000 <? Z.log2 m + x) || (Z.log2 m + x <? -2000)
      then inl Stoi.out_of_range
      else if x <? 0 then to_double neg m (pow2 (- x))
      else to_double neg (m * pow2 x) 1
  | Infinity neg => inr (Inf neg)
  | NotANumber neg => inr (NaN neg)
  end.

(** [std::stod(str)]. *)
Definition stod (str : string) : Stoi.exception + double :=
  match scan str with
  | Some (lit, _) => convert lit
  | None => inl Stoi.invalid_argument
  end.

(** The positive rational [n / d] to six significant decimal digits, ties to
    even: the six digits as a number and the decimal exponent of the first. *)
Definition round6 (n d : Z) : Z * Z :=
  let x0 := ndigits n - ndigits d in
  let above := if 0 <=? x0 then d * 10 ^ x0 <=? n else d <=? n * 10 ^ (- x0) in
  let x := if above then x0 else x0 - 1 in
  let s := x - 5 in
  let (q, _) :=
    if s <? 0 then round_even (n * 10 ^ (- s)) d else round_even n (d * 10 ^ s) in
  if q =? 1000000 then (100000, x + 1) else (q, x).

(** [%g] with precision 6 on the six digits [q] and the exponent [x]:
    exponent notation when [x < -4] or [x >= 6], trailing zeros removed. *)
Definition format_g (q x : Z) : string :=
  let ds := put_int q in
  if (x <? -4) || (6 <=? x) then
    DecimalDouble.with_point (substring 0 1 ds)
      (DecimalDouble.strip_zeros (substring 1 5 ds))
    ++ "e" ++ (if x <? 0 then "-" else "+")
    ++ (if Z.abs x <? 10 then "0" else "") ++ put_int (Z.abs x)
  else if x <? 0 then
    "0." ++ DecimalDouble.zeros (Z.to_nat (- x - 1)) ++ DecimalDouble.strip_zeros ds
  else
    let k := S (Z.to_nat x) in
    DecimalDouble.with_point (substring 0 k ds)
      (DecimalDouble.strip_zeros (substring k (6 - k) ds)).

(** [std::cout << d]. *)
Definition put_double (d : double) : string :=
  match d with
  | Zero neg => (if neg then "-" else "") ++ "0"
  | Inf neg => (if neg then "-" else "") ++ "inf"
  | NaN neg => (if neg then "-" else "") ++ "nan"
  | Finite neg m e =>
      let (q, x) := if e <? 0 then round6 m (pow2 (- e)) else round6 (m * pow2 e) 1 in
      (if neg then "-" else "") ++ format_g q x
  end.



End Stod.

(** * Properties *)

(** ** Strings *)

Module StrFacts.

Lemma append_nil_r (s : string) : s ++ "" = s.
Proof. induction s; simpl; congruence. Qed.

Lemma append_assoc (a b c : string) : (a ++ b) ++ c = a ++ b ++ c.
Proof. induction a; simpl; congruence. Qed.

Lemma length_append (a b : string) :
  String.length (a ++ b) = (String.length a + String.length b)%nat.
Proof. induction a; simpl; congruence. Qed.

Lemma substring_prefix (a b : string) :
  substring 0 (String.length a) (a ++ b) = a.
Proof.
  induction a as [|c a IH]; simpl.
  - destruct b; reflexivity.
  - now rewrite IH.
Qed.

Lemma substring_all (s : string) : substring 0 (String.length s) s = s.
Proof. induction s; simpl; congruence. Qed.

Lemma substring_suffix (a b : string) :
  substring (String.length a) (String.length b) (a ++ b) = b.
Proof. induction a; simpl; auto using substring_all. Qed.

Lemma empty_append_char (s : string) (c : ascii) :
  Str.empty (s ++ String c "") = false.
Proof. destruct s; reflexivity. Qed.

Lemma back_append_char (s : string) (c : ascii) :
  Str.back (s ++ String c "") = Some c.
Proof.
  induction s as [|d s IH]; simpl; trivial.
  rewrite IH. destruct s; reflexivity.
Qed.

Lemma pop_back_append_char (s : string) (c : ascii) :
  Str.pop_back (s ++ String c "") = s.
Proof.
  induction s as [|d s IH]; simpl; trivial.
  rewrite IH. destruct s; reflexivity.
Qed.

Lemma back_is_sentinel (s : string) : Str.back_is (s ++ "#") "#" = true.
Proof. unfold Str.back_is. now rewrite back_append_char. Qed.

Lemma empty_length (s : string) : Str.empty s = true <-> String.length s = 0%nat.
Proof. destruct s; simpl; split; congruence. Qed.

End StrFacts.

(** ** Framing *)

Section Framing.

Context {double : Type}.
Variable stod : string -> Stoi.exception + double.
Variable put_double : double -> string.

(** On a well-framed message the opcode and the payload are recovered, and
    the call is the dispatch followed by the record step. *)
Lemma parseCommand_frame (op payload : string) (h : History) :
  String.length op = 10%nat ->
  parseCommand stod put_double (frame op payload) h =
    match dispatch stod put_double op payload h with
    | Return out => (out, h)
    | Fallthrough out bRecognised =>
        (out, if bRecognised then updateHistory h op else h)
    end.
Proof.
  intros Hop. unfold parseCommand, frame.
  rewrite <- (StrFacts.append_assoc op payload "#").
  rewrite StrFacts.empty_append_char, StrFacts.back_is_sentinel. cbn [orb negb].
  replace (11 <=? String.length ((op ++ payload) ++ "#"))%nat with true
    by (symmetry; apply Nat.leb_le;
        rewrite !StrFacts.length_append, Hop; simpl; lia).
  unfold Str.substr, Str.substr_from.
  rewrite StrFacts.append_assoc.
  replace (String.length (op ++ payload ++ "#") - 10)%nat
    with (String.length (payload ++ "#"))
    by (rewrite !StrFacts.length_append, Hop; simpl; lia).
  rewrite <- !Hop.
  rewrite StrFacts.substring_prefix, !StrFacts.substring_suffix.
  rewrite StrFacts.empty_append_char, StrFacts.back_is_sentinel. cbn [andb negb].
  now rewrite StrFacts.pop_back_append_char.
Qed.

End Framing.

(** ** The history ring *)

Module Ring.

Lemma updateHistory_below (h : History) (op : string) :
  (List.length h < 5)%nat -> updateHistory h op = op :: h.
Proof.
  intros Hlen. unfold updateHistory.
  destruct (Nat.ltb_spec 5 (List.length (op :: h))) as [Hgt|_]; trivial.
  simpl in Hgt. lia.
Qed.

Lemma updateHistory_full (init : History) (old op : string) :
  (5 <= List.length (init ++ [old])%list)%nat ->
  updateHistory (init ++ [old])%list op = op :: init.
Proof.
  intros Hlen. unfold updateHistory, pop_back_deque.
  destruct (Nat.ltb_spec 5 (List.length (op :: init ++ [old])%list)) as [_|Hle].
  - change (op :: init ++ [old])%list with ((op :: init) ++ [old])%list.
    apply removelast_last.
  - simpl in Hle. lia.
Qed.

Lemma updateHistory_firstn (h : History) (op : string) :
  (List.length h <= 5)%nat -> updateHistory h op = firstn 5 (op :: h).
Proof.
  intros Hlen.
  destruct (Nat.eq_dec (List.length h) 5) as [Hfull|Hnot].
  - assert (Hne : h <> []) by (intros ->; discriminate Hfull).
    destruct (exists_last Hne) as (init & old & ->).
    rewrite updateHistory_full by lia.
    rewrite length_app in Hfull. simpl in Hfull.
    change (op :: init ++ [old])%list with ((op :: init) ++ [old])%list.
    rewrite firstn_app.
    replace (5 - List.length (op :: init))%nat with 0%nat
      by (cbn [List.length]; lia).
    rewrite firstn_all2 by (cbn [List.length]; lia). simpl. now rewrite app_nil_r.
  - rewrite updateHistory_below by lia.
    symmetry. apply firstn_all2. simpl. lia.
Qed.

Lemma updateHistory_length (h : History) (op : string) :
  (List.length h <= 5)%nat -> (List.length (updateHistory h op) <= 5)%nat.
Proof.
  intros Hlen. rewrite updateHistory_firstn by trivial.
  rewrite length_firstn. lia.
Qed.

Lemma Forall_removelast {A} (P : A -> Prop) (l : list A) :
  Forall P l -> Forall P (removelast l).
Proof.
  induction 1 as [|x l Hx Hl IH]; simpl; [constructor|].
  destruct l; [constructor|]. constructor; assumption.
Qed.

Lemma updateHistory_Forall (P : string -> Prop) (h : History) (op : string) :
  P op -> Forall P h -> Forall P (updateHistory h op).
Proof.
  intros Hop Hh. unfold updateHistory, pop_back_deque.
  destruct (5 <? _)%nat; [apply Forall_removelast|]; constructor; assumption.
Qed.

End Ring.

(** ** What one call does to the history *)

Section Calls.

Context {double : Type}.
Variable stod : string -> Stoi.exception + double.
Variable put_double : double -> string.

#[local] Abbreviation parseCommand := (parseCommand stod put_double).
#[local] Abbreviation parseAll := (parseAll stod put_double).

Lemma back_is_true (s : string) (c : ascii) :
  Str.back_is s c = true -> Str.back s = Some c.
Proof.
  unfold Str.back_is. destruct (Str.back s) as [d|]; [|discriminate].
  now intros ->%Ascii.eqb_eq.
Qed.

(** A call either leaves the history as it is or records a data opcode. *)
Lemma parseCommand_history (strInput : string) (h : History) :
  snd (parseCommand strInput h) = h \/
  exists op, data_opcode op /\ snd (parseCommand strInput h) = updateHistory h op.
Proof.
  unfold parseCommand.
  destruct (Str.empty strInput || negb (Str.back_is strInput "#")); [now left|].
  destruct (11 <=? String.length strInput)%nat; [|now left].
  generalize (Str.substr strInput 0 10); intros op.
  match goal with |- context [dispatch _ _ _ ?c _] => generalize c; intros content end.
  unfold dispatch, data_opcode.
  destruct (String.eqb_spec op "RUN_NO____") as [->|_].
  { right. eexists. split; [|reflexivity]. tauto. }
  destruct (String.eqb_spec op "POLAR_NO__") as [->|_].
  { right. eexists. split; [|reflexivity]. tauto. }
  destruct (String.eqb_spec op "USR_MSG___") as [->|_].
  { right. eexists. split; [|reflexivity]. tauto. }
  destruct (String.eqb_spec op "D_USR_FLD_") as [->|_].
  { destruct (negb _); [now left|].
    right. eexists. split; [|reflexivity]. tauto. }
  destruct (op =? "HISTORY___")%string; now left.
Qed.

Lemma parseAll_nil (h : History) : parseAll [] h = ("", h).
Proof. reflexivity. Qed.

Lemma parseAll_cons (strInput : string) (rest : list string) (h : History) :
  parseAll (strInput :: rest) h =
    (fst (parseCommand strInput h) ++ fst (parseAll rest (snd (parseCommand strInput h))),
     snd (parseAll rest (snd (parseCommand strInput h)))).
Proof.
  simpl. destruct (parseCommand strInput h) as [out h'].
  simpl. now destruct (parseAll rest h').
Qed.

(** An invariant of the history that every record step keeps is kept by any
    sequence of calls. *)
Lemma parseAll_invariant (I : History -> Prop) :
  (forall h op, data_opcode op -> I h -> I (updateHistory h op)) ->
  forall inputs h, I h -> I (snd (parseAll inputs h)).
Proof.
  intros Hstep. induction inputs as [|strInput rest IH]; intros h Hh; [exact Hh|].
  rewrite parseAll_cons. simpl. apply IH.
  destruct (parseCommand_history strInput h) as [->|(op & Hop & ->)]; auto.
Qed.

End Calls.


(** ** [std::stoi] reads exactly the lenient syntax *)

Module StoiFacts.

Import Stoi.

Lemma digit_is_digit (c : ascii) : is_digit c = true -> exists d, digit c = Some d.
Proof. unfold is_digit. destruct (digit c) as [d|]; [eauto|discriminate]. Qed.

Lemma digit_not_space (c : ascii) : is_digit c = true -> isspace c = false.
Proof.
  destruct c as [[] [] [] [] [] [] [] []]; vm_compute; congruence.
Qed.

Lemma digit_not_sign (c : ascii) (r : string) :
  is_digit c = true -> sign (String c r) = (false, String c r).
Proof.
  destruct c as [[] [] [] [] [] [] [] []]; vm_compute; congruence.
Qed.

Lemma accumulate_stops (acc : Z) (rest : string) :
  starts_with_digit rest = false -> accumulate acc rest = acc.
Proof.
  destruct rest as [|c r]; simpl; trivial.
  destruct (digit c); [discriminate|trivial].
Qed.

(** The digit loop computes the positional value of the run it reads. *)
Lemma accumulate_run (ds rest : string) :
  all_chars is_digit ds = true ->
  starts_with_digit rest = false ->
  forall acc,
    accumulate acc (ds ++ rest) =
      acc * 10 ^ Z.of_nat (String.length ds) + numeral_value ds.
Proof.
  intros Hds Hrest. induction ds as [|c r IH]; intros acc.
  - simpl. rewrite accumulate_stops by trivial. lia.
  - simpl in Hds. apply andb_prop in Hds as [Hc Hr].
    destruct (digit_is_digit c Hc) as [d Hd].
    cbn [append accumulate numeral_value String.length]. rewrite Hd, IH by trivial.
    rewrite Nat2Z.inj_succ, Z.pow_succ_r by lia. ring.
Qed.

Lemma skip_space_split (s : string) :
  exists ws, s = ws ++ skip_space s /\ all_chars isspace ws = true.
Proof.
  induction s as [|c r (ws & Hr & Hws)].
  - now exists "".
  - simpl. destruct (isspace c) eqn:Hc.
    + exists (String c ws). simpl. rewrite Hc, Hws. split; [congruence|trivial].
    + now exists "".
Qed.

Lemma skip_space_append (ws s : string) :
  all_chars isspace ws = true -> skip_space s = s -> skip_space (ws ++ s) = s.
Proof.
  intros Hws Hs. induction ws as [|c r IH]; simpl; trivial.
  simpl in Hws. apply andb_prop in Hws as [-> Hr]. auto.
Qed.

Lemma sign_split (s : string) :
  exists sg,
    (sg = "" \/ sg = "+" \/ sg = "-") /\
    s = sg ++ snd (sign s) /\ fst (sign s) = (sg =? "-")%string.
Proof.
  destruct s as [|c r]; [exists ""; auto|].
  destruct (Ascii.eqb_spec c "-") as [->|Hm]; [exists "-"; auto|].
  destruct (Ascii.eqb_spec c "+") as [->|Hp]; [exists "+"; auto|].
  exists "".
  assert (sign (String c r) = (false, String c r)) as ->; [|auto].
  destruct c as [[] [] [] [] [] [] [] []]; try reflexivity; congruence.
Qed.

Lemma digit_run_split (body : string) :
  exists ds rest,
    body = ds ++ rest /\ all_chars is_digit ds = true /\
    starts_with_digit rest = false /\
    (starts_with_digit body = true -> ds <> "").
Proof.
  induction body as [|c r (ds & rest & Hr & Hds & Hrest & _)].
  - exists "", "". repeat split; trivial; discriminate.
  - destruct (is_digit c) eqn:Hc.
    + exists (String c ds), rest. simpl. rewrite Hc, Hds.
      repeat split; trivial; congruence.
    + exists "", (String c r). simpl. unfold is_digit in Hc.
      destruct (digit c); [discriminate|]. repeat split; trivial; discriminate.
Qed.

Lemma in_int_range_spec (n : Z) :
  in_int_range n = true <-> INT_MIN <= n <= INT_MAX.
Proof. unfold in_int_range. rewrite andb_true_iff, !Z.leb_le. tauto. Qed.

(** Soundness: what [stoi] returns is a lenient reading of its argument. *)
Lemma stoi_reads (str : string) (n : Z) : stoi str = inr n -> reads_as str n.
Proof.
  unfold stoi.
  destruct (skip_space_split str) as (ws & Hstr & Hws).
  destruct (sign_split (skip_space str)) as (sg & Hsg & Hbody & Hminus).
  destruct (sign (skip_space str)) as [minus body]. simpl in Hbody, Hminus.
  destruct (digit_run_split body) as (ds & rest & Hrun & Hds & Hrest & Hne).
  destruct (starts_with_digit body) eqn:Hstart; [|discriminate].
  fold (in_int_range (if minus then - accumulate 0 body else accumulate 0 body)).
  destruct (in_int_range _) eqn:Hrange; [|discriminate].
  intros [= <-].
  apply (reads_as_intro str _ ws sg ds rest); auto.
  - rewrite Hstr at 1. rewrite Hbody at 1. now rewrite Hrun.
  - rewrite Hrun, accumulate_run, <- Hminus by trivial. now destruct minus.
  - now apply in_int_range_spec.
Qed.

(** Completeness: every lenient reading is what [stoi] returns. *)
Lemma reads_stoi (str : string) (n : Z) : reads_as str n -> stoi str = inr n.
Proof.
  intros [ws sg ds rest -> Hws Hsg Hne Hds Hrest -> Hrange].
  destruct ds as [|c r]; [congruence|]. clear Hne.
  assert (Hc : is_digit c = true) by (simpl in Hds; now apply andb_prop in Hds).
  unfold stoi.
  assert (Hskip : skip_space (sg ++ String c r ++ rest) = sg ++ String c r ++ rest).
  { destruct Hsg as [->|[->| ->]]; simpl; trivial.
    now rewrite digit_not_space. }
  rewrite skip_space_append by trivial.
  assert (Hsign : sign (sg ++ String c r ++ rest)
                  = ((sg =? "-")%string, String c r ++ rest)).
  { destruct Hsg as [->|[->| ->]]; simpl; trivial.
    now apply digit_not_sign. }
  rewrite Hsign.
  assert (Hstart : starts_with_digit (String c r ++ rest) = true).
  { simpl. now destruct (digit_is_digit c Hc) as [d ->]. }
  rewrite Hstart, accumulate_run by trivial. rewrite Z.mul_0_l, Z.add_0_l.
  apply in_int_range_spec in Hrange. unfold in_int_range in Hrange.
  destruct (sg =? "-")%string; now rewrite Hrange.
Qed.

Lemma stoi_reads_iff (str : string) (n : Z) : stoi str = inr n <-> reads_as str n.
Proof. split; [apply stoi_reads|apply reads_stoi]. Qed.

(** A reading is unique, and a payload with none makes [stoi] throw. *)
Lemma stoi_throws (str : string) :
  (forall n, ~ reads_as str n) -> exists e, stoi str = inl e.
Proof.
  intros Hnone. destruct (stoi str) as [e|n] eqn:H; [eauto|].
  now apply stoi_reads, Hnone in H.
Qed.

End StoiFacts.

(** ** Writing an [int] and reading it back *)

Module PutInt.

Import Stoi.

Lemma digits_of_uint (d : Decimal.uint) :
  all_chars is_digit (NilEmpty.string_of_uint d) = true.
Proof. induction d; simpl; trivial. Qed.

(** Evaluates [digit] on the literal characters of the goal. *)
Ltac eval_digit :=
  repeat match goal with
         | |- context [digit ?c] =>
             let v := eval vm_compute in (digit c) in
             change (digit c) with v
         end;
  cbv beta iota.

Lemma accumulate_of_uint_acc (d : Decimal.uint) :
  forall p, accumulate (Z.pos p) (NilEmpty.string_of_uint d) = Z.pos (Pos.of_uint_acc d p).
Proof.
  induction d; intros p;
    cbn [NilEmpty.string_of_uint accumulate Pos.of_uint_acc]; eval_digit;
    try reflexivity; rewrite <- IHd; f_equal; lia.
Qed.

Lemma accumulate_of_uint (d : Decimal.uint) :
  accumulate 0 (NilEmpty.string_of_uint d) = Z.of_N (Pos.of_uint d).
Proof.
  induction d;
    cbn [NilEmpty.string_of_uint accumulate Pos.of_uint Z.of_N]; eval_digit;
    try reflexivity; try exact IHd;
    rewrite <- accumulate_of_uint_acc; reflexivity.
Qed.

Lemma value_of_uint (d : Decimal.uint) :
  numeral_value (NilEmpty.string_of_uint d) = Z.of_N (Pos.of_uint d).
Proof.
  rewrite <- accumulate_of_uint.
  rewrite <- (StrFacts.append_nil_r (NilEmpty.string_of_uint d)) at 2.
  rewrite StoiFacts.accumulate_run; trivial using digits_of_uint.
Qed.

Lemma string_of_pos (p : positive) :
  NilZero.string_of_uint (Pos.to_uint p) = NilEmpty.string_of_uint (Pos.to_uint p)
  /\ NilEmpty.string_of_uint (Pos.to_uint p) <> "".
Proof.
  pose proof (DecimalPos.Unsigned.to_uint_nonnil p) as Hnil.
  destruct (Pos.to_uint p); [congruence|..]; split; try reflexivity; discriminate.
Qed.

(** The numeral written for an [int] reads as that [int]. *)
Lemma put_int_reads (n : Z) : INT_MIN <= n <= INT_MAX -> reads_as (put_int n) n.
Proof.
  intros Hrange. destruct n as [|p|p]; unfold put_int; simpl Z.to_int.
  - apply (reads_as_intro _ _ "" "" "0" ""); auto; discriminate.
  - destruct (string_of_pos p) as [Heq Hne].
    apply (reads_as_intro _ _ "" "" (NilEmpty.string_of_uint (Pos.to_uint p)) "");
      auto using digits_of_uint.
    + cbn [NilZero.string_of_int append]. now rewrite Heq, StrFacts.append_nil_r.
    + cbn [String.eqb]. now rewrite value_of_uint, DecimalPos.Unsigned.of_to.
  - destruct (string_of_pos p) as [Heq Hne].
    apply (reads_as_intro _ _ "" "-" (NilEmpty.string_of_uint (Pos.to_uint p)) "");
      auto using digits_of_uint.
    + cbn [NilZero.string_of_int append]. now rewrite Heq, StrFacts.append_nil_r.
    + rewrite String.eqb_refl. now rewrite value_of_uint, DecimalPos.Unsigned.of_to.
Qed.

Lemma stoi_put_int (n : Z) : INT_MIN <= n <= INT_MAX -> stoi (put_int n) = inr n.
Proof. intros Hrange. now apply StoiFacts.reads_stoi, put_int_reads. Qed.

End PutInt.

(** ** The token loop splits on commas and drops the empty tokens *)

Module TokenFacts.

Import Tokens.

Lemma nonempty_tokens_cons (tok : string) (tail : list string) :
  filter (fun t => negb (Str.empty t)) (tok :: tail)
  = (kept tok ++ filter (fun t => negb (Str.empty t)) tail)%list.
Proof. unfold kept. simpl. now destruct (Str.empty tok). Qed.

(** One extraction takes the first token of the split and leaves a stream
    with the same remaining non-empty tokens. *)
Lemma extract_split (s : string) :
  exists tail,
    split_commas s = fst (extract s) :: tail /\
    filter (fun t => negb (Str.empty t)) tail = nonempty_tokens (snd (extract s)) /\
    (String.length (snd (extract s)) <= String.length s)%nat.
Proof.
  induction s as [|c r (tail & Hsplit & Htail & Hlen)].
  - exists []. repeat split; trivial.
  - simpl. destruct (Ascii.eqb c ","%char).
    + exists (split_commas r). simpl. repeat split; trivial. lia.
    + rewrite Hsplit. destruct (extract r) as [tok rest]. simpl in *.
      exists tail. repeat split; trivial. lia.
Qed.

Lemma extract_shorter (c : ascii) (r : string) :
  (String.length (snd (extract (String c r))) <= String.length r)%nat.
Proof.
  simpl. destruct (Ascii.eqb c ","%char); simpl; [lia|].
  destruct (extract_split r) as (_ & _ & _ & Hlen).
  now destruct (extract r).
Qed.

Lemma nonempty_tokens_extract (s : string) :
  nonempty_tokens s
  = (kept (fst (extract s)) ++ nonempty_tokens (snd (extract s)))%list.
Proof.
  destruct (extract_split s) as (tail & Hsplit & Htail & _).
  unfold nonempty_tokens at 1. now rewrite Hsplit, nonempty_tokens_cons, Htail.
Qed.

(** With fuel above the length of the stream, the loop appends the non-empty
    tokens of the whole stream: the fuel is never what ends it. *)
Lemma loop_enough (fuel : nat) :
  forall (s : string) (vecTokens : list string),
    (String.length s < fuel)%nat ->
    loop fuel s vecTokens = (vecTokens ++ nonempty_tokens s)%list.
Proof.
  induction fuel as [|fuel IH]; intros s vecTokens Hfuel; [lia|].
  destruct s as [|c r].
  - simpl. now rewrite app_nil_r.
  - cbn [loop getline]. pose proof (extract_shorter c r) as Hlen.
    rewrite (nonempty_tokens_extract (String c r)).
    destruct (extract (String c r)) as [strToken rest]. cbn [fst snd] in *.
    rewrite IH by (simpl in Hfuel; lia).
    unfold kept. destruct (Str.empty strToken); trivial.
    now rewrite <- app_assoc.
Qed.

Lemma tokenise_spec (strMessageContent : string) :
  tokenise strMessageContent = nonempty_tokens strMessageContent.
Proof. unfold tokenise. now rewrite loop_enough by lia. Qed.

Lemma only_commas_no_token (payload : string) :
  only_commas payload = true -> nonempty_tokens payload = [].
Proof.
  unfold only_commas, nonempty_tokens.
  induction payload as [|c r IH]; simpl; trivial.
  intros [-> Hr]%andb_prop. simpl. auto.
Qed.

Lemma odd_size (n : nat) : negb (Nat.eqb (Nat.modulo n 2) 0) = Nat.odd n.
Proof.
  unfold Nat.odd. f_equal.
  destruct (Nat.even n) eqn:Heven.
  - apply Nat.even_spec in Heven as [k ->].
    now rewrite Nat.mul_comm, Nat.Div0.mod_mul.
  - apply Nat.eqb_neq. intros Hmod.
    apply Nat.Div0.mod_divides in Hmod as [k ->].
    now rewrite Nat.even_mul in Heven.
Qed.

End TokenFacts.

(** ** The branches of the dispatch *)

Module ListFacts.

Lemma firstn_app_firstn {A} (n : nat) (a b : list A) :
  firstn n (a ++ firstn n b) = firstn n (a ++ b).
Proof.
  rewrite !firstn_app, firstn_firstn. do 2 f_equal. lia.
Qed.

(** A property of lists proved two elements at a time. *)
Lemma pair_induction {A} (P : list A -> Prop) :
  P [] -> (forall x, P [x]) -> (forall x y l, P l -> P (x :: y :: l)) ->
  forall l, P l.
Proof.
  intros Hnil Hone Hstep l.
  assert (H : P l /\ forall x, P (x :: l)); [|apply H].
  induction l as [|y l [IH1 IH2]]; split; auto.
Qed.

End ListFacts.

Section Branches.

Context {double : Type}.
Variable stod : string -> Stoi.exception + double.
Variable put_double : double -> string.

#[local] Abbreviation parseCommand := (parseCommand stod put_double).
#[local] Abbreviation parseAll := (parseAll stod put_double).

Lemma number_opcode_length (op success invalid : string) :
  number_opcode op success invalid -> String.length op = 10%nat.
Proof. now destruct 1. Qed.

Lemma data_opcode_length (op : string) : data_opcode op -> String.length op = 10%nat.
Proof. unfold data_opcode. intuition (subst; reflexivity). Qed.

Lemma data_opcodeb_spec (op : string) : data_opcodeb op = true <-> data_opcode op.
Proof.
  unfold data_opcodeb, data_opcode.
  rewrite !orb_true_iff, !String.eqb_eq. tauto.
Qed.

(** An integer opcode: one line, decided by [stoi], and the record step. *)
Lemma parse_number (op success invalid payload : string) (h : History) :
  number_opcode op success invalid ->
  parseCommand (frame op payload) h
  = (print_number success invalid payload, updateHistory h op).
Proof.
  intros Hop. rewrite parseCommand_frame by eauto using number_opcode_length.
  now destruct Hop.
Qed.

Lemma print_number_ok (success invalid payload : string) (n : Z) :
  Stoi.stoi payload = inr n ->
  print_number success invalid payload = line (success ++ put_int n).
Proof.
  unfold print_number, line. intros ->. now rewrite !StrFacts.append_assoc.
Qed.

Lemma print_number_error (success invalid payload : string) (e : Stoi.exception) :
  Stoi.stoi payload = inl e ->
  print_number success invalid payload = line (invalid ++ payload).
Proof.
  unfold print_number, line. intros ->. now rewrite !StrFacts.append_assoc.
Qed.

(** The parameter list: silent on an odd number of tokens, the header and
    the pairs on an even one. *)
Lemma parse_fields (payload : string) (h : History) :
  parseCommand (frame "D_USR_FLD_" payload) h
  = if Nat.odd (List.length (nonempty_tokens payload)) then ("", h)
    else (line "Parameters:" ++ print_pairs stod put_double (nonempty_tokens payload),
          updateHistory h "D_USR_FLD_").
Proof.
  rewrite parseCommand_frame by reflexivity.
  unfold dispatch. cbn [String.eqb Ascii.eqb Bool.eqb].
  rewrite TokenFacts.odd_size, TokenFacts.tokenise_spec.
  destruct (Nat.odd _); trivial.
Qed.

Lemma parse_history (h : History) :
  parseCommand "HISTORY___#" h = (lines h, h).
Proof.
  change "HISTORY___#" with (frame "HISTORY___" "").
  rewrite parseCommand_frame by reflexivity.
  unfold dispatch. cbn [String.eqb Ascii.eqb Bool.eqb]. f_equal.
  induction h as [|op rest IH]; simpl; trivial.
  unfold line. now rewrite StrFacts.append_assoc, IH.
Qed.

(** Pairs whose names are all too long print one complaint each. *)
Lemma print_pairs_too_long (toks : list string) :
  forallb too_long (names toks) = true ->
  print_pairs stod put_double toks
  = lines (map (fun name => "Parameter name too long: " ++ name) (names toks)).
Proof.
  induction toks as [| |name value rest IH] using ListFacts.pair_induction;
    trivial.
  cbn [names forallb map lines print_pairs].
  intros [Hname Hrest]%andb_prop. rewrite IH by trivial.
  unfold print_pair. unfold too_long in Hname. rewrite Hname.
  unfold line. now rewrite !StrFacts.append_assoc.
Qed.

(** A recorded message puts its opcode at the front of the history. *)
Lemma recorded_step (msg : string * string) (h : History) :
  recorded msg = true ->
  snd (parseCommand (frame_msg msg) h) = updateHistory h (fst msg).
Proof.
  destruct msg as [op payload]. unfold recorded, frame_msg. cbn [fst snd].
  intros [Hop Hshape]%andb_prop. apply data_opcodeb_spec in Hop.
  destruct Hop as [->|[->|[->| ->]]].
  - now rewrite (parse_number _ _ _ _ _ number_run).
  - now rewrite (parse_number _ _ _ _ _ number_polar).
  - now rewrite parseCommand_frame by reflexivity.
  - rewrite parse_fields. simpl in Hshape.
    unfold Nat.odd. now rewrite Hshape.
Qed.

Lemma parseAll_recorded (msgs : list (string * string)) :
  forallb recorded msgs = true ->
  forall h, snd (parseAll (map frame_msg msgs) h)
            = fold_left updateHistory (map fst msgs) h.
Proof.
  induction msgs as [|msg rest IH]; intros Hall h; trivial.
  simpl in Hall. apply andb_prop in Hall as [Hmsg Hrest].
  cbn [map fold_left]. rewrite parseAll_cons. cbn [snd].
  now rewrite recorded_step, IH.
Qed.

End Branches.

Lemma fold_updateHistory (ops : list string) :
  forall h : History,
    (List.length h <= 5)%nat ->
    fold_left updateHistory ops h = firstn 5 (rev ops ++ h).
Proof.
  induction ops as [|op rest IH]; intros h Hlen.
  - cbn [fold_left rev app]. symmetry. now apply firstn_all2.
  - cbn [fold_left rev]. rewrite IH by now apply Ring.updateHistory_length.
    rewrite Ring.updateHistory_firstn by trivial.
    now rewrite ListFacts.firstn_app_firstn, <- app_assoc.
Qed.

(** * The claims of the specification *)

Section Claims.

Context {double : Type}.
Variable stod : string -> Stoi.exception + double.
Variable put_double : double -> string.

#[local] Abbreviation parseCommand := (parseCommand stod put_double).
#[local] Abbreviation parseAll := (parseAll stod put_double).

(** The two integer branches on any payload, which is how far the code is
    from the strict reading of C1.  For a well-framed [RUN_NO____] or
    [POLAR_NO__] message the success line is written exactly when the
    payload reads as [N] leniently, as [std::stoi] does: optional white
    space, an optional sign, at least one decimal digit, the run of digits
    having a value that fits an [int], whatever follows the digits being
    ignored.  A payload with no such reading gives the [Invalid ...] line
    with the whole payload.  One of the two always happens, and the opcode
    is recorded in both. *)
Theorem number_payload_lenient (op success invalid payload : string) (h : History) :
  number_opcode op success invalid ->
  (forall n, reads_as payload n ->
     parseCommand (frame op payload) h
     = (line (success ++ put_int n), updateHistory h op))
  /\ ((forall n, ~ reads_as payload n) ->
      parseCommand (frame op payload) h
      = (line (invalid ++ payload), updateHistory h op))
  /\ ((exists n, reads_as payload n) \/ (forall n, ~ reads_as payload n)).
Proof.
  intros Hop. rewrite (parse_number _ _ op success invalid) by trivial.
  repeat split.
  - intros n Hn%StoiFacts.reads_stoi. now rewrite (print_number_ok _ _ _ n).
  - intros [e He]%StoiFacts.stoi_throws. now rewrite (print_number_error _ _ _ e).
  - destruct (Stoi.stoi payload) as [e|n] eqn:Hstoi.
    + right. intros n Hn%StoiFacts.reads_stoi. congruence.
    + left. exists n. now apply StoiFacts.stoi_reads.
Qed.

(** C2.  An input that is empty, or does not end in [#], or is shorter than
    11 characters writes nothing and leaves the history as it was. *)
Theorem framing_failure_is_silent (strInput : string) (h : History) :
  strInput = "" \/ Str.back strInput <> Some "#"%char
  \/ (String.length strInput < 11)%nat ->
  parseCommand strInput h = ("", h).
Proof.
  intros Hbad. unfold parseCommand.
  destruct (Str.empty strInput) eqn:Hempty; trivial.
  destruct (Str.back_is strInput "#") eqn:Hback; trivial. cbn [orb negb].
  destruct (Nat.leb_spec 11 (String.length strInput)) as [Hlen|_]; trivial.
  exfalso. destruct Hbad as [->|[Hlast|Hshort]].
  - discriminate Hempty.
  - now apply Hlast, back_is_true.
  - lia.
Qed.

(** C3.  From the empty history, after any sequence of calls the history has
    at most 5 entries; the record step puts the opcode at the front, and when
    that makes more than 5 entries it drops the one at the back and no
    other. *)
Theorem ring_length_bounded :
  (forall inputs, (List.length (snd (parseAll inputs [])) <= 5)%nat)
  /\ (forall h op, (List.length h < 5)%nat -> updateHistory h op = op :: h)
  /\ (forall init old op,
        (5 <= List.length (init ++ [old])%list)%nat ->
        updateHistory (init ++ [old])%list op = op :: init).
Proof.
  split; [|split].
  - intros inputs.
    apply (parseAll_invariant stod put_double (fun h => (List.length h <= 5)%nat)).
    + intros h op _. apply Ring.updateHistory_length.
    + simpl. lia.
  - apply Ring.updateHistory_below.
  - intros init old op. apply Ring.updateHistory_full.
Qed.

(** C4.  From the empty history, after any sequence of calls every entry of
    the history is one of [RUN_NO____], [POLAR_NO__], [USR_MSG___],
    [D_USR_FLD_]; in particular [HISTORY___] is never an entry. *)
Theorem ring_holds_data_opcodes (inputs : list string) :
  Forall data_opcode (snd (parseAll inputs []))
  /\ ~ In "HISTORY___" (snd (parseAll inputs [])).
Proof.
  assert (Hall : Forall data_opcode (snd (parseAll inputs []))).
  { apply (parseAll_invariant stod put_double (Forall data_opcode)).
    - intros h op Hop Hh. now apply Ring.updateHistory_Forall.
    - constructor. }
  split; trivial.
  intros Hin. rewrite Forall_forall in Hall. apply Hall in Hin.
  unfold data_opcode in Hin. intuition discriminate.
Qed.

(** C5.  For a well-framed [D_USR_FLD_] message, with the payload split on
    commas and the empty tokens dropped: an odd number of tokens writes
    nothing and records nothing; an even number writes the [Parameters:]
    line first, then what the pairs give, and records the opcode. *)
Theorem fields_shape (payload : string) (h : History) :
  (Nat.odd (List.length (nonempty_tokens payload)) = true ->
   parseCommand (frame "D_USR_FLD_" payload) h = ("", h))
  /\ (Nat.even (List.length (nonempty_tokens payload)) = true ->
      parseCommand (frame "D_USR_FLD_" payload) h
      = (line "Parameters:" ++ print_pairs stod put_double (nonempty_tokens payload),
         updateHistory h "D_USR_FLD_")).
Proof.
  rewrite parse_fields. unfold Nat.odd.
  split; intros Hparity.
  - now rewrite Hparity.
  - now rewrite Hparity.
Qed.

(** C6, as the code has it.  For a well-framed [D_USR_FLD_] message with an
    even number of tokens in which every parameter name is longer than 15
    characters, the output is the [Parameters:] line followed by one line
    [Parameter name too long: <name>] per pair, in order, and nothing else;
    the opcode is recorded. *)
Theorem fields_all_skipped (payload : string) (h : History) :
  Nat.even (List.length (nonempty_tokens payload)) = true ->
  forallb too_long (names (nonempty_tokens payload)) = true ->
  parseCommand (frame "D_USR_FLD_" payload) h
  = (line "Parameters:"
     ++ lines (map (fun name => "Parameter name too long: " ++ name)
                   (names (nonempty_tokens payload))),
     updateHistory h "D_USR_FLD_").
Proof.
  intros Heven Hlong. rewrite parse_fields. unfold Nat.odd. rewrite Heven.
  cbn [negb]. now rewrite print_pairs_too_long.
Qed.

(** C7.  From the empty history, after the well-framed messages of recorded
    data opcodes [o1 ... ok], the message [HISTORY___#] writes
    [min k 5] lines, the opcodes [ok, o(k-1), ...] newest first (line [i],
    counted from 0, is [o(k-i)]), and leaves the history as it was. *)
Theorem history_lists_newest_first (msgs : list (string * string)) :
  forallb recorded msgs = true ->
  let ops := map fst msgs in
  let h := snd (parseAll (map frame_msg msgs) []) in
  let shown := firstn 5 (rev ops) in
  parseCommand "HISTORY___#" h = (lines shown, h)
  /\ List.length shown = Nat.min (List.length ops) 5
  /\ forall i, (i < List.length shown)%nat ->
               nth i shown "" = nth (List.length ops - 1 - i) ops "".
Proof.
  intros Hall ops h shown.
  assert (Hh : h = shown).
  { unfold h, shown, ops. rewrite parseAll_recorded by trivial.
    rewrite fold_updateHistory by (simpl; lia). now rewrite app_nil_r. }
  assert (Hlen : List.length shown = Nat.min (List.length ops) 5).
  { unfold shown. rewrite length_firstn, length_rev. lia. }
  split; [|split]; trivial.
  - rewrite parse_history. now rewrite Hh.
  - intros i Hi. unfold shown.
    rewrite nth_firstn.
    destruct (Nat.ltb_spec i 5) as [_|Hge]; [|lia].
    rewrite rev_nth by lia. f_equal. lia.
Qed.

(** C8.  For every [n] that fits an [int], the message
    ["RUN_NO____" ++ str(n) ++ "#"] writes exactly the line [Run number: n]. *)
Theorem run_number_round_trip (n : Z) (h : History) :
  Stoi.INT_MIN <= n <= Stoi.INT_MAX ->
  fst (parseCommand ("RUN_NO____" ++ put_int n ++ "#") h)
  = line ("Run number: " ++ put_int n).
Proof.
  intros Hrange. change ("RUN_NO____" ++ put_int n ++ "#") with (frame "RUN_NO____" (put_int n)).
  rewrite (parse_number _ _ _ _ _ _ _ number_run). cbn [fst].
  apply print_number_ok. now apply PutInt.stoi_put_int.
Qed.

(** C9.  A [D_USR_FLD_] message whose payload is empty or made of commas
    only has no token: it writes the single line [Parameters:] and records
    the opcode. *)
Theorem fields_without_tokens (payload : string) (h : History) :
  only_commas payload = true ->
  parseCommand (frame "D_USR_FLD_" payload) h
  = (line "Parameters:", updateHistory h "D_USR_FLD_").
Proof.
  intros Hcommas. rewrite parse_fields.
  now rewrite TokenFacts.only_commas_no_token.
Qed.

(** X1.  A well-framed message whose ten-character opcode is none of the
    five known ones writes nothing and leaves the history as it was. *)
Theorem unknown_opcode_is_silent (op payload : string) (h : History) :
  String.length op = 10%nat ->
  ~ data_opcode op -> op <> "HISTORY___" ->
  parseCommand (frame op payload) h = ("", h).
Proof.
  intros Hlen Hdata Hhist. rewrite parseCommand_frame by trivial.
  unfold dispatch, data_opcode in *.
  destruct (String.eqb_spec op "RUN_NO____"); [tauto|].
  destruct (String.eqb_spec op "POLAR_NO__"); [tauto|].
  destruct (String.eqb_spec op "USR_MSG___"); [tauto|].
  destruct (String.eqb_spec op "D_USR_FLD_"); [tauto|].
  destruct (String.eqb_spec op "HISTORY___"); [tauto|].
  reflexivity.
Qed.

(** X2.  [HISTORY___#] writes the history, front first, and does not change
    it: sent twice in a row it writes the same lines twice. *)
Theorem history_query_is_transparent (h : History) :
  parseCommand "HISTORY___#" h = (lines h, h)
  /\ parseAll ["HISTORY___#"; "HISTORY___#"] h = (lines h ++ lines h, h).
Proof.
  split; [apply parse_history|].
  rewrite !parseAll_cons, !parse_history, parseAll_nil. cbn [fst snd].
  now rewrite StrFacts.append_nil_r.
Qed.

(** X3.  A well-framed [USR_MSG___] message writes its payload as one line
    and records the opcode. *)
Theorem user_message_is_echoed (payload : string) (h : History) :
  parseCommand (frame "USR_MSG___" payload) h
  = (line payload, updateHistory h "USR_MSG___").
Proof.
  rewrite parseCommand_frame by reflexivity.
  unfold dispatch. cbn [String.eqb Ascii.eqb Bool.eqb].
  reflexivity.
Qed.

End Claims.

(** * The claims on concrete messages

    The messages below are run on the reference platform
    [DecimalDouble]. *)

(** The driver's messages, in the order [main] sends them. *)
Example driver_messages :
  DecimalDouble.parseAll
    ["RUN_NO____123#"; "POLAR_NO__2#"; "USR_MSG___Start Tunnel#";
     "D_USR_FLD_Parameter1,0.004947,Parameter2,0.203044,#";
     "RUN_NO____124#"; "POLAR_NO__3#";
     "D_USR_FLD_Parameter3,0.02347,Parameter4,0.12343044,ParameterT,1.12345,#";
     "HISTORY___#"; "UNKNOWN___test#"; "RUN_NO____ABC#"; "RUN_NO____123"] []
  = (lines
       ["Run number: 123"; "Polar number: 2"; "Start Tunnel";
        "Parameters:"; "Parameter1 = 0.004947"; "Parameter2 = 0.203044";
        "Run number: 124"; "Polar number: 3";
        "Parameters:"; "Parameter3 = 0.02347"; "Parameter4 = 0.12343";
        "ParameterT = 1.12345";
        "D_USR_FLD_"; "POLAR_NO__"; "RUN_NO____"; "D_USR_FLD_"; "USR_MSG___";
        "Invalid Run number: ABC"],
     ["RUN_NO____"; "D_USR_FLD_"; "POLAR_NO__"; "RUN_NO____"; "D_USR_FLD_"]).
Proof. vm_compute. reflexivity. Qed.

Example stoi_samples :
  map Stoi.stoi ["123"; "-2147483648"; "2147483648"; " +007x"; "+-1"; ""; "12 3"]
  = [inr 123; inr (-2147483648); inl Stoi.out_of_range; inr 7;
     inl Stoi.invalid_argument; inl Stoi.invalid_argument; inr 12].
Proof. reflexivity. Qed.

(** C1.  The code breaks the claim at [RUN_NO____123abc#]: the payload
    [123abc] is not a sign followed by digits only, so the claim (with the
    code's own comments on the conversion) calls for
    [Invalid Run number: 123abc]; the code writes [Run number: 123] and
    records the opcode. *)
Lemma strict_number_counterexample :
  strict_int "123abc" = false
  /\ DecimalDouble.parseCommand "RUN_NO____123abc#" []
     = (line "Run number: 123", ["RUN_NO____"])
  /\ line "Run number: 123" <> line "Invalid Run number: 123abc".
Proof. split; [reflexivity|split; [reflexivity|discriminate]]. Qed.

Lemma number_payload_lenient_witness :
  number_opcode "POLAR_NO__" "Polar number: " "Invalid Polar number: "
  /\ reads_as "  -12 volts" (-12)
  /\ DecimalDouble.parseCommand "POLAR_NO__  -12 volts#" []
     = (line "Polar number: -12", ["POLAR_NO__"]).
Proof.
  assert (Hreads : reads_as "  -12 volts" (-12)).
  { apply (reads_as_intro _ _ "  " "-" "12" " volts");
      [reflexivity | reflexivity | auto | discriminate | reflexivity
      | reflexivity | reflexivity | unfold Stoi.INT_MIN, Stoi.INT_MAX; lia]. }
  split; [constructor|split; [exact Hreads|]].
  exact (proj1 (number_payload_lenient DecimalDouble.stod DecimalDouble.put_double
                  "POLAR_NO__" "Polar number: " "Invalid Polar number: "
                  "  -12 volts" [] number_polar)
               (-12) Hreads).
Defined.

Lemma framing_failure_is_silent_witness :
  Str.back "RUN_NO____123" <> Some "#"%char
  /\ DecimalDouble.parseCommand "RUN_NO____123" ["POLAR_NO__"] = ("", ["POLAR_NO__"]).
Proof.
  assert (Hlast : Str.back "RUN_NO____123" <> Some "#"%char) by discriminate.
  split; [exact Hlast|].
  exact (framing_failure_is_silent DecimalDouble.stod DecimalDouble.put_double
           "RUN_NO____123" ["POLAR_NO__"] (or_intror (or_introl Hlast))).
Defined.

Lemma ring_length_bounded_witness :
  (List.length
     (snd (DecimalDouble.parseAll
             ["RUN_NO____1#"; "POLAR_NO__2#"; "USR_MSG___a#"; "D_USR_FLD_#";
              "RUN_NO____3#"; "POLAR_NO__4#"; "USR_MSG___b#"] [])) <= 5)%nat
  /\ updateHistory ["RUN_NO____"] "POLAR_NO__" = ["POLAR_NO__"; "RUN_NO____"]
  /\ updateHistory (["a"; "b"; "c"; "d"] ++ ["e"])%list "f" = ["f"; "a"; "b"; "c"; "d"].
Proof.
  pose proof (ring_length_bounded DecimalDouble.stod DecimalDouble.put_double)
    as (Hbound & Hbelow & Hfull).
  split; [|split].
  - apply Hbound.
  - apply Hbelow. simpl. lia.
  - apply Hfull. simpl. lia.
Defined.

Lemma fields_shape_witness :
  Nat.odd (List.length (nonempty_tokens "P1,0.5,P2")) = true
  /\ DecimalDouble.parseCommand "D_USR_FLD_P1,0.5,P2#" ["RUN_NO____"]
     = ("", ["RUN_NO____"])
  /\ Nat.even (List.length (nonempty_tokens "P1,0.5,,P2,x,")) = true
  /\ DecimalDouble.parseCommand "D_USR_FLD_P1,0.5,,P2,x,#" ["RUN_NO____"]
     = (lines ["Parameters:"; "P1 = 0.5"; "Invalid parameter value for parameter: P2"],
        ["D_USR_FLD_"; "RUN_NO____"]).
Proof.
  split; [reflexivity|split; [|split; [reflexivity|]]].
  - exact (proj1 (fields_shape DecimalDouble.stod DecimalDouble.put_double
                    "P1,0.5,P2" ["RUN_NO____"]) eq_refl).
  - exact (proj2 (fields_shape DecimalDouble.stod DecimalDouble.put_double
                    "P1,0.5,,P2,x," ["RUN_NO____"]) eq_refl).
Defined.

(** C6 as stated fails: with one pair whose name has 16 characters the
    header is not the only line written. *)
Lemma fields_all_skipped_counterexample :
  Nat.even (List.length (nonempty_tokens "ABCDEFGHIJKLMNOP,1")) = true
  /\ forallb too_long (names (nonempty_tokens "ABCDEFGHIJKLMNOP,1")) = true
  /\ DecimalDouble.parseCommand "D_USR_FLD_ABCDEFGHIJKLMNOP,1#" []
     = (lines ["Parameters:"; "Parameter name too long: ABCDEFGHIJKLMNOP"],
        ["D_USR_FLD_"])
  /\ lines ["Parameters:"; "Parameter name too long: ABCDEFGHIJKLMNOP"]
     <> line "Parameters:".
Proof. split; [reflexivity|split; [reflexivity|split; [reflexivity|discriminate]]]. Qed.

Lemma fields_all_skipped_witness :
  Nat.even (List.length (nonempty_tokens "ABCDEFGHIJKLMNOP,1,QRSTUVWXYZ0123456,x")) = true
  /\ forallb too_long (names (nonempty_tokens "ABCDEFGHIJKLMNOP,1,QRSTUVWXYZ0123456,x")) = true
  /\ DecimalDouble.parseCommand "D_USR_FLD_ABCDEFGHIJKLMNOP,1,QRSTUVWXYZ0123456,x#" []
     = (lines ["Parameters:"; "Parameter name too long: ABCDEFGHIJKLMNOP";
               "Parameter name too long: QRSTUVWXYZ0123456"],
        ["D_USR_FLD_"]).
Proof.
  split; [reflexivity|split; [reflexivity|]].
  exact (fields_all_skipped DecimalDouble.stod DecimalDouble.put_double
           "ABCDEFGHIJKLMNOP,1,QRSTUVWXYZ0123456,x" [] eq_refl eq_refl).
Defined.

Lemma history_lists_newest_first_witness :
  forallb recorded
    [("RUN_NO____", "1"); ("POLAR_NO__", "x"); ("USR_MSG___", "go");
     ("D_USR_FLD_", "a,1,"); ("USR_MSG___", ""); ("D_USR_FLD_", "")] = true
  /\ DecimalDouble.parseCommand "HISTORY___#"
       (snd (DecimalDouble.parseAll
               ["RUN_NO____1#"; "POLAR_NO__x#"; "USR_MSG___go#";
                "D_USR_FLD_a,1,#"; "USR_MSG___#"; "D_USR_FLD_#"] []))
     = (lines ["D_USR_FLD_"; "USR_MSG___"; "D_USR_FLD_"; "USR_MSG___"; "POLAR_NO__"],
        ["D_USR_FLD_"; "USR_MSG___"; "D_USR_FLD_"; "USR_MSG___"; "POLAR_NO__"]).
Proof.
  split; [reflexivity|].
  exact (proj1 (history_lists_newest_first DecimalDouble.stod DecimalDouble.put_double
                  [("RUN_NO____", "1"); ("POLAR_NO__", "x"); ("USR_MSG___", "go");
                   ("D_USR_FLD_", "a,1,"); ("USR_MSG___", ""); ("D_USR_FLD_", "")]
                  eq_refl)).
Defined.

Lemma run_number_round_trip_witness :
  Stoi.INT_MIN <= -2147483648 <= Stoi.INT_MAX
  /\ fst (DecimalDouble.parseCommand "RUN_NO____-2147483648#" [])
     = line "Run number: -2147483648".
Proof.
  assert (Hrange : Stoi.INT_MIN <= -2147483648 <= Stoi.INT_MAX)
    by (unfold Stoi.INT_MIN, Stoi.INT_MAX; lia).
  split; [exact Hrange|].
  exact (run_number_round_trip DecimalDouble.stod DecimalDouble.put_double
           (-2147483648) [] Hrange).
Defined.

Lemma fields_without_tokens_witness :
  only_commas "" = true
  /\ DecimalDouble.parseCommand "D_USR_FLD_#" [] = (line "Parameters:", ["D_USR_FLD_"])
  /\ only_commas ",,," = true
  /\ DecimalDouble.parseCommand "D_USR_FLD_,,,#" [] = (line "Parameters:", ["D_USR_FLD_"]).
Proof.
  split; [reflexivity|split; [|split; [reflexivity|]]].
  - exact (fields_without_tokens DecimalDouble.stod DecimalDouble.put_double "" [] eq_refl).
  - exact (fields_without_tokens DecimalDouble.stod DecimalDouble.put_double ",,," [] eq_refl).
Defined.

Lemma unknown_opcode_is_silent_witness :
  ~ data_opcode "UNKNOWN___" /\ "UNKNOWN___" <> "HISTORY___"
  /\ DecimalDouble.parseCommand "UNKNOWN___test#" ["RUN_NO____"] = ("", ["RUN_NO____"]).
Proof.
  assert (Hdata : ~ data_opcode "UNKNOWN___")
    by (unfold data_opcode; intuition discriminate).
  assert (Hhist : "UNKNOWN___" <> "HISTORY___") by discriminate.
  split; [exact Hdata|split; [exact Hhist|]].
  exact (unknown_opcode_is_silent DecimalDouble.stod DecimalDouble.put_double
           "UNKNOWN___" "test" ["RUN_NO____"] eq_refl Hdata Hhist).
Defined.

(** * Further properties of the code *)

(** ** The token loop as an inverse of joining with commas *)

Module TokenLaws.

Import Tokens.

Lemma split_commas_nonempty (s : string) : split_commas s <> [].
Proof.
  destruct s as [|c r]; simpl; [discriminate|].
  destruct (Ascii.eqb c ","%char); [discriminate|].
  destruct (split_commas r); discriminate.
Qed.

Lemma split_commas_cons (a b : string) :
  split_commas (a ++ String ","%char b) = (split_commas a ++ split_commas b)%list.
Proof.
  induction a as [|c a IH]; [reflexivity|].
  cbn [append split_commas]. destruct (Ascii.eqb c ","%char).
  - now rewrite IH.
  - rewrite IH. pose proof (split_commas_nonempty a) as Hne.
    destruct (split_commas a); [congruence|reflexivity].
Qed.

Lemma split_commas_append (a b : string) :
  split_commas (a ++ "," ++ b) = (split_commas a ++ split_commas b)%list.
Proof. exact (split_commas_cons a b). Qed.

Lemma split_commas_free (s : string) : comma_free s = true -> split_commas s = [s].
Proof.
  unfold comma_free. induction s as [|c r IH]; [reflexivity|].
  cbn [all_chars split_commas]. intros [Hc Hr]%andb_prop.
  apply negb_true_iff in Hc. now rewrite Hc, IH.
Qed.

Lemma split_commas_parts (s : string) :
  Forall (fun tok => comma_free tok = true) (split_commas s).
Proof.
  induction s as [|c r IH]; [repeat constructor|].
  cbn [split_commas]. destruct (Ascii.eqb c ","%char) eqn:Hc.
  - now constructor.
  - destruct (split_commas r) as [|tok toks]; [repeat constructor; cbn; now rewrite Hc|].
    inversion IH as [|? ? Htok Htoks]; subst.
    constructor; trivial. unfold comma_free in *. cbn. now rewrite Hc.
Qed.

Lemma nonempty_tokens_append (a b : string) :
  nonempty_tokens (a ++ "," ++ b) = (nonempty_tokens a ++ nonempty_tokens b)%list.
Proof. unfold nonempty_tokens. now rewrite split_commas_append, filter_app. Qed.

Lemma nonempty_tokens_token (s : string) :
  token s = true -> nonempty_tokens s = [s].
Proof.
  unfold token, nonempty_tokens. intros [Hne Hfree]%andb_prop.
  rewrite split_commas_free by trivial. cbn. now rewrite Hne.
Qed.

Lemma nonempty_tokens_trailing (a : string) :
  nonempty_tokens (a ++ ",") = nonempty_tokens a.
Proof.
  change (a ++ ",") with (a ++ "," ++ "").
  rewrite nonempty_tokens_append. apply app_nil_r.
Qed.

Lemma nonempty_tokens_concat (toks : list string) :
  forallb token toks = true ->
  nonempty_tokens (String.concat "," toks) = toks.
Proof.
  induction toks as [|tok rest IH]; [reflexivity|].
  cbn [forallb]. intros [Htok Hrest]%andb_prop.
  destruct rest as [|tok' rest].
  - now apply nonempty_tokens_token.
  - change (String.concat "," (tok :: tok' :: rest))
      with (tok ++ "," ++ String.concat "," (tok' :: rest)).
    now rewrite nonempty_tokens_append, nonempty_tokens_token, IH.
Qed.

Lemma nonempty_tokens_encode (fields : list (string * string)) :
  forallb (fun f => token (fst f) && token (snd f)) fields = true ->
  nonempty_tokens (encode_fields fields)
  = flat_map (fun f => [fst f; snd f]) fields.
Proof.
  induction fields as [|[name value] rest IH]; [reflexivity|].
  cbn [forallb encode_fields flat_map fst snd].
  intros [[Hname Hvalue]%andb_prop Hrest]%andb_prop.
  rewrite !nonempty_tokens_append, !nonempty_tokens_token, IH by trivial.
  reflexivity.
Qed.

End TokenLaws.

(** ** Every input that passes the framing test is a frame *)

Module FrameFacts.

Lemma substring_split (n : nat) (s : string) :
  (n <= String.length s)%nat ->
  substring 0 n s ++ substring n (String.length s - n) s = s.
Proof.
  revert s. induction n as [|n IH]; intros s Hn.
  - rewrite Nat.sub_0_r, StrFacts.substring_all. now destruct s.
  - destruct s as [|c r]; [simpl in Hn; lia|].
    cbn [substring String.length Nat.sub append]. f_equal.
    apply IH. simpl in Hn. lia.
Qed.

Lemma length_substring (n : nat) (s : string) :
  (n <= String.length s)%nat -> String.length (substring 0 n s) = n.
Proof.
  revert s. induction n as [|n IH]; intros s Hn.
  - now destruct s.
  - destruct s as [|c r]; [simpl in Hn; lia|].
    cbn [substring String.length]. f_equal. apply IH. simpl in Hn. lia.
Qed.

Lemma back_append (a b : string) : b <> "" -> Str.back (a ++ b) = Str.back b.
Proof.
  intros Hb. induction a as [|c a IH]; [reflexivity|].
  cbn [append Str.back]. rewrite IH.
  destruct (a ++ b) eqn:Hab; trivial.
  destruct a; [simpl in Hab; congruence|discriminate].
Qed.

Lemma pop_back_back (t : string) (c : ascii) :
  Str.back t = Some c -> t = Str.pop_back t ++ String c "".
Proof.
  induction t as [|d r IH]; [discriminate|].
  cbn [Str.back Str.pop_back]. destruct r as [|e r'].
  - now intros [= ->].
  - intros Hback. cbn [append]. f_equal. now apply IH.
Qed.

(** An input that passes the framing test is its first ten characters, a
    payload and the sentinel. *)
Lemma frame_decompose (strInput : string) :
  well_framed strInput = true ->
  strInput = frame (opcode_of strInput) (payload_of strInput)
  /\ String.length (opcode_of strInput) = 10%nat.
Proof.
  unfold well_framed, opcode_of, payload_of, frame, Str.substr, Str.substr_from.
  intros [[_ Hback]%andb_prop Hlen%Nat.leb_le]%andb_prop.
  apply back_is_true in Hback.
  pose proof (substring_split 10 strInput ltac:(lia)) as Hsplit.
  pose proof (length_substring 10 strInput ltac:(lia)) as Hop.
  set (op := substring 0 10 strInput) in *.
  set (content := substring 10 (String.length strInput - 10) strInput) in *.
  assert (Hcontent : content <> "").
  { intros Hempty. rewrite Hempty, StrFacts.append_nil_r in Hsplit.
    rewrite <- Hsplit in Hlen. lia. }
  rewrite <- Hsplit, back_append in Hback by trivial.
  split; trivial.
  rewrite <- (pop_back_back content "#" Hback). now symmetry.
Qed.

Lemma not_framed_empty (strInput : string) :
  well_framed strInput = false ->
  Str.empty strInput || negb (Str.back_is strInput "#") = true
  \/ (11 <=? String.length strInput)%nat = false.
Proof.
  unfold well_framed.
  destruct (Str.empty strInput), (Str.back_is strInput "#"),
    (11 <=? String.length strInput)%nat; cbn; auto.
Qed.

End FrameFacts.

(** ** Lines *)

Module LineFacts.

Lemma whole_lines_empty : whole_lines "".
Proof. now left. Qed.

Lemma whole_lines_line (body : string) : whole_lines (body ++ Str.nl).
Proof. right. now exists body. Qed.

Lemma whole_lines_append (a b : string) :
  whole_lines a -> whole_lines b -> whole_lines (a ++ b).
Proof.
  intros Ha [->|[body ->]].
  - now rewrite StrFacts.append_nil_r.
  - right. exists (a ++ body). unfold line. now rewrite StrFacts.append_assoc.
Qed.

Lemma whole_lines_history (h : History) : whole_lines (print_history h).
Proof.
  induction h as [|op rest IH]; [apply whole_lines_empty|].
  cbn [print_history]. rewrite <- StrFacts.append_assoc.
  apply whole_lines_append; [apply whole_lines_line|exact IH].
Qed.

Lemma lines_app (a b : list string) : lines (a ++ b) = lines a ++ lines b.
Proof.
  induction a as [|s a IH]; [reflexivity|].
  cbn [app lines]. now rewrite IH, StrFacts.append_assoc.
Qed.

End LineFacts.

(** ** [std::stoi] out of range *)

Lemma stoi_decomposed (ws sg ds rest : string) :
  all_chars Stoi.isspace ws = true ->
  sg = "" \/ sg = "+" \/ sg = "-" ->
  ds <> "" ->
  all_chars is_digit ds = true ->
  Stoi.starts_with_digit rest = false ->
  Stoi.stoi (ws ++ sg ++ ds ++ rest)
  = let v := if (sg =? "-")%string then - numeral_value ds else numeral_value ds in
    if in_int_range v then inr v else inl Stoi.out_of_range.
Proof.
  intros Hws Hsg Hne Hds Hrest.
  destruct ds as [|c r]; [congruence|]. clear Hne.
  assert (Hc : is_digit c = true) by (simpl in Hds; now apply andb_prop in Hds).
  unfold Stoi.stoi.
  assert (Hskip : Stoi.skip_space (sg ++ String c r ++ rest) = sg ++ String c r ++ rest).
  { destruct Hsg as [->|[->| ->]]; simpl; trivial.
    now rewrite StoiFacts.digit_not_space. }
  rewrite StoiFacts.skip_space_append by trivial.
  assert (Hsign : Stoi.sign (sg ++ String c r ++ rest)
                  = ((sg =? "-")%string, String c r ++ rest)).
  { destruct Hsg as [->|[->| ->]]; simpl; trivial.
    now apply StoiFacts.digit_not_sign. }
  rewrite Hsign.
  assert (Hstart : Stoi.starts_with_digit (String c r ++ rest) = true).
  { simpl. now destruct (StoiFacts.digit_is_digit c Hc) as [d ->]. }
  rewrite Hstart, StoiFacts.accumulate_run by trivial.
  rewrite Z.mul_0_l, Z.add_0_l. reflexivity.
Qed.

(** ** Calls, one at a time and in sequence *)

Section Behaviour.

Context {double : Type}.
Variable stod : string -> Stoi.exception + double.
Variable put_double : double -> string.

#[local] Abbreviation parseCommand := (parseCommand stod put_double).
#[local] Abbreviation parseAll := (parseAll stod put_double).

Lemma parseCommand_unframed (strInput : string) (h : History) :
  well_framed strInput = false -> parseCommand strInput h = ("", h).
Proof.
  intros [Hguard|Hshort]%FrameFacts.not_framed_empty; unfold parseCommand.
  - now rewrite Hguard.
  - rewrite Hshort. now destruct (_ || _).
Qed.

Lemma unrecorded_step (op payload : string) (h : History) :
  String.length op = 10%nat ->
  recorded (op, payload) = false ->
  snd (parseCommand (frame op payload) h) = h.
Proof.
  intros Hlen Hrec.
  destruct (String.eqb_spec op "D_USR_FLD_") as [->|Hfld].
  - rewrite parse_fields. cbn in Hrec. unfold Nat.odd. now rewrite Hrec.
  - apply String.eqb_neq in Hfld.
    rewrite parseCommand_frame by trivial. unfold dispatch.
    unfold recorded, data_opcodeb in Hrec. rewrite Hfld in *.
    revert Hrec.
    destruct (op =? "RUN_NO____")%string; [discriminate|].
    destruct (op =? "POLAR_NO__")%string; [discriminate|].
    destruct (op =? "USR_MSG___")%string; [discriminate|].
    now destruct (op =? "HISTORY___")%string.
Qed.

(** What a call does to the history depends on the input alone. *)
Lemma logged_step (strInput : string) (h : History) :
  snd (parseCommand strInput h) = fold_left updateHistory (logged strInput) h.
Proof.
  unfold logged. destruct (well_framed strInput) eqn:Hframed; cbn [andb].
  - destruct (FrameFacts.frame_decompose strInput Hframed) as [Hinput Hlen].
    rewrite Hinput at 1.
    destruct (recorded _) eqn:Hrec.
    + exact (recorded_step stod put_double
               (opcode_of strInput, payload_of strInput) h Hrec).
    + now apply unrecorded_step.
  - now rewrite parseCommand_unframed.
Qed.

Lemma logged_all (inputs : list string) :
  forall h,
    snd (parseAll inputs h) = fold_left updateHistory (flat_map logged inputs) h.
Proof.
  induction inputs as [|strInput rest IH]; intros h; [reflexivity|].
  rewrite parseAll_cons. cbn [snd flat_map].
  now rewrite fold_left_app, IH, logged_step.
Qed.

Lemma print_pairs_app (a b : list string) :
  Nat.even (List.length a) = true ->
  print_pairs stod put_double (a ++ b)
  = print_pairs stod put_double a ++ print_pairs stod put_double b.
Proof.
  induction a as [| |name value rest IH] using ListFacts.pair_induction.
  - reflexivity.
  - discriminate.
  - intros Heven. cbn [app print_pairs]. rewrite IH by exact Heven.
    now rewrite StrFacts.append_assoc.
Qed.

Lemma whole_lines_pair (name value : string) :
  whole_lines (print_pair stod put_double name value).
Proof.
  unfold print_pair. destruct (_ <? _)%nat; [|destruct (stod value)];
    rewrite <- ?StrFacts.append_assoc; apply LineFacts.whole_lines_line.
Qed.

Lemma whole_lines_pairs (toks : list string) :
  whole_lines (print_pairs stod put_double toks).
Proof.
  induction toks as [| |name value rest IH] using ListFacts.pair_induction;
    try apply LineFacts.whole_lines_empty.
  cbn [print_pairs].
  apply LineFacts.whole_lines_append; [apply whole_lines_pair|exact IH].
Qed.

Lemma interact_until_EXIT (before after : list string) :
  ~ In "EXIT" before ->
  forall h, interact stod put_double (before ++ "EXIT" :: after) h
            = Some (parseAll before h).
Proof.
  induction before as [|strUserInput rest IH]; intros Hnot h; [reflexivity|].
  cbn [app interact].
  destruct (String.eqb_spec strUserInput "EXIT") as [->|_].
  - exfalso. apply Hnot. now left.
  - rewrite parseAll_cons.
    destruct (parseCommand strUserInput h) as [out h'].
    rewrite IH by (intros Hin; apply Hnot; now right).
    cbn [fst snd]. now destruct (parseAll rest h').
Qed.

End Behaviour.

(** ** The properties *)

Section Extras.

Context {double : Type}.
Variable stod : string -> Stoi.exception + double.
Variable put_double : double -> string.

#[local] Abbreviation parseCommand := (parseCommand stod put_double).
#[local] Abbreviation parseAll := (parseAll stod put_double).

(** X4.  The token loop cuts at every comma: the tokens of [a,b] are those
    of [a] followed by those of [b], and a string without a comma is one
    token, or none when it is empty. *)
Theorem tokenise_cuts_at_commas :
  (forall a b,
     Tokens.tokenise (a ++ "," ++ b)
     = (Tokens.tokenise a ++ Tokens.tokenise b)%list)
  /\ (forall s, comma_free s = true ->
                Tokens.tokenise s = if Str.empty s then [] else [s]).
Proof.
  split.
  - intros a b. rewrite !TokenFacts.tokenise_spec.
    apply TokenLaws.nonempty_tokens_append.
  - intros s Hfree. rewrite TokenFacts.tokenise_spec.
    unfold nonempty_tokens. rewrite TokenLaws.split_commas_free by trivial.
    cbn. now destruct (Str.empty s).
Qed.

(** X5.  Joining non-empty comma-free tokens with commas and running the
    token loop gives the tokens back, with or without a closing comma. *)
Theorem tokenise_inverts_join (toks : list string) :
  forallb token toks = true ->
  Tokens.tokenise (String.concat "," toks) = toks
  /\ Tokens.tokenise (String.concat "," toks ++ ",") = toks.
Proof.
  intros Htoks. rewrite !TokenFacts.tokenise_spec.
  rewrite TokenLaws.nonempty_tokens_trailing.
  split; now apply TokenLaws.nonempty_tokens_concat.
Qed.

(** X6.  Whatever the message content, no token the loop keeps is empty or
    holds a comma. *)
Theorem tokenise_keeps_tokens (strMessageContent : string) :
  forallb token (Tokens.tokenise strMessageContent) = true.
Proof.
  rewrite TokenFacts.tokenise_spec. apply forallb_forall.
  intros tok [Hin Hne]%filter_In. unfold token. rewrite Hne.
  pose proof (TokenLaws.split_commas_parts strMessageContent) as Hparts.
  rewrite Forall_forall in Hparts. now rewrite (Hparts tok Hin).
Qed.

(** X7.  A parameter list in which every name is a token of at most 15
    characters and every value is a token that [stod] converts writes the
    [Parameters:] line and then, pair by pair, [name = value] with the
    converted value; the opcode is recorded. *)
Theorem fields_well_formed (fields : list (string * string * double)) (h : History) :
  Forall (fun f => token (fst (fst f)) = true /\ token (snd (fst f)) = true
                   /\ (String.length (fst (fst f)) <= 15)%nat
                   /\ stod (snd (fst f)) = inr (snd f)) fields ->
  parseCommand (frame "D_USR_FLD_" (encode_fields (map fst fields))) h
  = (line "Parameters:"
     ++ lines (map (fun f => fst (fst f) ++ " = " ++ put_double (snd f)) fields),
     updateHistory h "D_USR_FLD_").
Proof.
  intros Hfields. rewrite parse_fields.
  assert (Htoks : nonempty_tokens (encode_fields (map fst fields))
                  = flat_map (fun f => [fst (fst f); snd (fst f)]) fields).
  { rewrite TokenLaws.nonempty_tokens_encode.
    - now rewrite flat_map_concat_map, map_map, <- flat_map_concat_map.
    - apply forallb_forall. intros nv [f [<- Hf]]%in_map_iff.
      rewrite Forall_forall in Hfields.
      destruct (Hfields f Hf) as (-> & -> & _). reflexivity. }
  rewrite Htoks. clear Htoks.
  assert (Hodd : Nat.odd (List.length
                   (flat_map (fun f => [fst (fst f); snd (fst f)]) fields)) = false).
  { clear Hfields. induction fields as [|f rest IH]; [reflexivity|].
    cbn [flat_map app List.length]. exact IH. }
  rewrite Hodd. clear Hodd. do 2 f_equal.
  induction Hfields as [|[[name value] d] rest (_ & _ & Hlen & Hstod) _ IH];
    [reflexivity|].
  cbn [flat_map app print_pairs map lines fst snd] in *. rewrite IH.
  unfold print_pair.
  destruct (Nat.ltb_spec 15 (String.length name)) as [Hlong|_]; [lia|].
  rewrite Hstod. unfold line. now rewrite !StrFacts.append_assoc.
Qed.

(** X8.  Two parameter lists with an even number of tokens each, joined by
    a comma, report what the first reports followed by what the second
    reports, under one [Parameters:] line. *)
Theorem fields_compose (a b : string) (h : History) :
  Nat.even (List.length (Tokens.tokenise a)) = true ->
  Nat.even (List.length (Tokens.tokenise b)) = true ->
  exists ra rb,
    fst (parseCommand (frame "D_USR_FLD_" a) h) = line "Parameters:" ++ ra
    /\ fst (parseCommand (frame "D_USR_FLD_" b) h) = line "Parameters:" ++ rb
    /\ parseCommand (frame "D_USR_FLD_" (a ++ "," ++ b)) h
       = (line "Parameters:" ++ ra ++ rb, updateHistory h "D_USR_FLD_").
Proof.
  rewrite !TokenFacts.tokenise_spec. intros Ha Hb.
  exists (print_pairs stod put_double (nonempty_tokens a)),
         (print_pairs stod put_double (nonempty_tokens b)).
  rewrite !parse_fields, TokenLaws.nonempty_tokens_append, length_app.
  unfold Nat.odd. rewrite Nat.even_add, Ha, Hb. cbn [negb fst Bool.eqb].
  repeat split. now rewrite print_pairs_app.
Qed.

(** X9.  Unless the first ten characters of the input are [HISTORY___],
    what a call writes does not depend on the history. *)
Theorem output_ignores_history (strInput : string) (h h' : History) :
  opcode_of strInput <> "HISTORY___" ->
  fst (parseCommand strInput h) = fst (parseCommand strInput h').
Proof.
  unfold opcode_of, parseCommand. intros Hop.
  destruct (_ || _); trivial.
  destruct (11 <=? _)%nat; trivial.
  revert Hop. generalize (Str.substr strInput 0 10). intros op Hop.
  match goal with |- context [dispatch _ _ _ ?c _] => generalize c; intros content end.
  unfold dispatch.
  destruct (op =? "RUN_NO____")%string; trivial.
  destruct (op =? "POLAR_NO__")%string; trivial.
  destruct (op =? "USR_MSG___")%string; trivial.
  destruct (op =? "D_USR_FLD_")%string; [now destruct (negb _)|].
  destruct (String.eqb_spec op "HISTORY___"); [contradiction|trivial].
Qed.

(** X10.  From the empty history, after any sequence of calls the history is
    the opcodes of the five most recent inputs that were well framed and
    recorded, newest first: inputs that are not recorded leave no trace,
    whatever their place in the sequence. *)
Theorem ring_keeps_last_five_recorded (inputs : list string) :
  snd (parseAll inputs []) = firstn 5 (rev (flat_map logged inputs)).
Proof.
  rewrite logged_all, fold_updateHistory by (simpl; lia).
  now rewrite app_nil_r.
Qed.

(** X11.  What a call writes is made of whole lines: it is empty or ends in
    a newline. *)
Theorem output_is_whole_lines (strInput : string) (h : History) :
  whole_lines (fst (parseCommand strInput h)).
Proof.
  unfold parseCommand.
  destruct (_ || _); [apply LineFacts.whole_lines_empty|].
  destruct (11 <=? _)%nat; [|apply LineFacts.whole_lines_empty].
  generalize (Str.substr strInput 0 10). intros op.
  match goal with |- context [dispatch _ _ _ ?c _] => generalize c; intros content end.
  unfold dispatch.
  destruct (op =? "RUN_NO____")%string.
  { destruct (Stoi.stoi content); cbn [fst];
      rewrite <- StrFacts.append_assoc; apply LineFacts.whole_lines_line. }
  destruct (op =? "POLAR_NO__")%string.
  { destruct (Stoi.stoi content); cbn [fst];
      rewrite <- StrFacts.append_assoc; apply LineFacts.whole_lines_line. }
  destruct (op =? "USR_MSG___")%string; [apply LineFacts.whole_lines_line|].
  destruct (op =? "D_USR_FLD_")%string.
  { destruct (negb _); cbn [fst]; [apply LineFacts.whole_lines_empty|].
    rewrite <- StrFacts.append_assoc.
    apply LineFacts.whole_lines_append;
      [apply LineFacts.whole_lines_line|apply whole_lines_pairs]. }
  destruct (op =? "HISTORY___")%string;
    [apply LineFacts.whole_lines_history|apply LineFacts.whole_lines_empty].
Qed.

(** X12.  An integer payload whose run of digits has, with its sign, a value
    outside [INT_MIN .. INT_MAX] is reported with the [Invalid ...] line and
    the whole payload; the value is never wrapped or cut, and the opcode is
    recorded. *)
Theorem number_overflow_is_invalid
    (op success invalid ws sg ds rest : string) (h : History) :
  number_opcode op success invalid ->
  all_chars Stoi.isspace ws = true ->
  sg = "" \/ sg = "+" \/ sg = "-" ->
  ds <> "" ->
  all_chars is_digit ds = true ->
  Stoi.starts_with_digit rest = false ->
  in_int_range (if (sg =? "-")%string then - numeral_value ds else numeral_value ds)
  = false ->
  parseCommand (frame op (ws ++ sg ++ ds ++ rest)) h
  = (line (invalid ++ ws ++ sg ++ ds ++ rest), updateHistory h op).
Proof.
  intros Hop Hws Hsg Hne Hds Hrest Hrange.
  rewrite (parse_number _ _ op success invalid) by trivial. f_equal.
  apply (print_number_error _ _ _ Stoi.out_of_range).
  rewrite stoi_decomposed by trivial. cbv zeta. now rewrite Hrange.
Qed.

(** X13.  [main] returns exactly when some line read from the terminal is
    [EXIT].  It has then written the banner, the output of the example
    messages, the prompt, and the output of the lines before the first
    [EXIT] parsed in order on the history the examples left; nothing after
    that line is read. *)
Theorem main_stops_at_EXIT :
  (forall before after,
     ~ In "EXIT" before ->
     main stod put_double (before ++ "EXIT" :: after)
     = Some (banner ++ fst (parseAll examples []) ++ prompt
             ++ fst (parseAll before example_history)))
  /\ (forall cin, ~ In "EXIT" cin -> main stod put_double cin = None).
Proof.
  assert (Hhistory : snd (parseAll examples []) = example_history).
  { rewrite logged_all. reflexivity. }
  unfold main. destruct (parseAll examples []) as [out h]. cbn [fst snd] in *.
  subst h. split.
  - intros before after Hnot. rewrite interact_until_EXIT by trivial.
    now destruct (parseAll before example_history).
  - intros cin Hnot.
    assert (Hnone : forall h, interact stod put_double cin h = None);
      [|now rewrite Hnone].
    induction cin as [|strUserInput rest IH]; intros h; [reflexivity|].
    cbn [interact].
    destruct (String.eqb_spec strUserInput "EXIT") as [->|_].
    + exfalso. apply Hnot. now left.
    + destruct (parseCommand strUserInput h) as [out' h'].
      now rewrite IH by (intros Hin; apply Hnot; now right).
Qed.

End Extras.

(** ** The properties on concrete messages *)

Lemma tokenise_cuts_at_commas_witness :
  Tokens.tokenise ("a,1" ++ "," ++ ",b,2,") = ["a"; "1"; "b"; "2"]
  /\ comma_free "Start Tunnel" = true
  /\ Tokens.tokenise "Start Tunnel" = ["Start Tunnel"].
Proof.
  destruct tokenise_cuts_at_commas as [Hcut Hfree].
  split; [|split; [reflexivity|]].
  - exact (Hcut "a,1" ",b,2,").
  - exact (Hfree "Start Tunnel" eq_refl).
Defined.

Lemma tokenise_inverts_join_witness :
  forallb token ["Parameter1"; "0.004947"; "Parameter2"; "0.203044"] = true
  /\ Tokens.tokenise "Parameter1,0.004947,Parameter2,0.203044"
     = ["Parameter1"; "0.004947"; "Parameter2"; "0.203044"]
  /\ Tokens.tokenise "Parameter1,0.004947,Parameter2,0.203044,"
     = ["Parameter1"; "0.004947"; "Parameter2"; "0.203044"].
Proof.
  split; [reflexivity|].
  exact (tokenise_inverts_join
           ["Parameter1"; "0.004947"; "Parameter2"; "0.203044"] eq_refl).
Defined.

Lemma fields_well_formed_witness :
  DecimalDouble.stod "0.004947" = inr (DecimalDouble.mk false 4947 (-6))
  /\ DecimalDouble.stod "0.203044" = inr (DecimalDouble.mk false 203044 (-6))
  /\ DecimalDouble.parseCommand
       "D_USR_FLD_Parameter1,0.004947,Parameter2,0.203044,#" []
     = (lines ["Parameters:"; "Parameter1 = 0.004947"; "Parameter2 = 0.203044"],
        ["D_USR_FLD_"]).
Proof.
  split; [reflexivity|split; [reflexivity|]].
  refine (fields_well_formed DecimalDouble.stod DecimalDouble.put_double
            [("Parameter1", "0.004947", DecimalDouble.mk false 4947 (-6));
             ("Parameter2", "0.203044", DecimalDouble.mk false 203044 (-6))] [] _).
  repeat constructor; cbn; lia.
Defined.

Lemma fields_compose_witness :
  Nat.even (List.length (Tokens.tokenise "P1,0.5")) = true
  /\ Nat.even (List.length (Tokens.tokenise "P2,x")) = true
  /\ exists ra rb,
       fst (DecimalDouble.parseCommand "D_USR_FLD_P1,0.5#" [])
       = line "Parameters:" ++ ra
       /\ fst (DecimalDouble.parseCommand "D_USR_FLD_P2,x#" [])
          = line "Parameters:" ++ rb
       /\ DecimalDouble.parseCommand "D_USR_FLD_P1,0.5,P2,x#" []
          = (line "Parameters:" ++ ra ++ rb, ["D_USR_FLD_"]).
Proof.
  split; [reflexivity|split; [reflexivity|]].
  exact (fields_compose DecimalDouble.stod DecimalDouble.put_double
           "P1,0.5" "P2,x" [] eq_refl eq_refl).
Defined.

Lemma output_ignores_history_witness :
  opcode_of "RUN_NO____7#" <> "HISTORY___"
  /\ fst (DecimalDouble.parseCommand "RUN_NO____7#" [])
     = fst (DecimalDouble.parseCommand "RUN_NO____7#" ["USR_MSG___"; "POLAR_NO__"]).
Proof.
  assert (Hop : opcode_of "RUN_NO____7#" <> "HISTORY___") by discriminate.
  split; [exact Hop|].
  exact (output_ignores_history DecimalDouble.stod DecimalDouble.put_double
           "RUN_NO____7#" [] ["USR_MSG___"; "POLAR_NO__"] Hop).
Defined.

Lemma number_overflow_is_invalid_witness :
  in_int_range (numeral_value "2147483648") = false
  /\ DecimalDouble.parseCommand "RUN_NO____ +2147483648rpm#" []
     = (line "Invalid Run number:  +2147483648rpm", ["RUN_NO____"]).
Proof.
  split; [reflexivity|].
  refine (number_overflow_is_invalid DecimalDouble.stod DecimalDouble.put_double
            "RUN_NO____" "Run number: " "Invalid Run number: "
            " " "+" "2147483648" "rpm" [] number_run eq_refl _ _ eq_refl eq_refl eq_refl).
  - auto.
  - discriminate.
Defined.

Lemma main_stops_at_EXIT_witness :
  ~ In "EXIT" ["HISTORY___#"; "exit"; "EXIT#"]
  /\ main DecimalDouble.stod DecimalDouble.put_double
       ["HISTORY___#"; "exit"; "EXIT#"; "EXIT"; "RUN_NO____1#"]
     = Some (banner ++ fst (DecimalDouble.parseAll examples []) ++ prompt
             ++ lines example_history)
  /\ main DecimalDouble.stod DecimalDouble.put_double ["USR_MSG___bye#"] = None.
Proof.
  assert (Hnot : ~ In "EXIT" ["HISTORY___#"; "exit"; "EXIT#"])
    by (cbn; intuition discriminate).
  assert (Hnone : ~ In "EXIT" ["USR_MSG___bye#"])
    by (cbn; intuition discriminate).
  destruct (main_stops_at_EXIT DecimalDouble.stod DecimalDouble.put_double)
    as [Hstop Hspin].
  split; [exact Hnot|split].
  - exact (Hstop ["HISTORY___#"; "exit"; "EXIT#"] ["RUN_NO____1#"] Hnot).
  - exact (Hspin ["USR_MSG___bye#"] Hnone).
Defined.

(** ** [std::stod] takes the longest literal *)

Module StodFacts.

Import Stod.











End StodFacts.




(** The driver's messages with the library's [std::stod]. *)
Example driver_messages_stod :
  fst (parseAll Stod.stod Stod.put_double examples [])
  = lines
      ["Run number: 123"; "Polar number: 2"; "Start Tunnel";
       "Parameters:"; "Parameter1 = 0.004947"; "Parameter2 = 0.203044";
       "Run number: 124"; "Polar number: 3";
       "Parameters:"; "Parameter3 = 0.02347"; "Parameter4 = 0.12343";
       "ParameterT = 1.12345";
       "D_USR_FLD_"; "POLAR_NO__"; "RUN_NO____"; "D_USR_FLD_"; "USR_MSG___";
       "Invalid Run number: ABC"].
Proof. vm_compute. reflexivity. Qed.

Example stod_samples :
  map (fun s => match Stod.stod s with
                | inr d => Stod.put_double d
                | inl Stoi.invalid_argument => "invalid_argument"
                | inl Stoi.out_of_range => "out_of_range"
                end)
      ["1.5abc"; "1e999"; "1e-320"; "0x1F"; "inf"; "-Infinity"; "nan(a_1)";
       "1.000005"; "999999.5"; "-0"; "0x"; "1e+"; "."; " +.5"; "abc"]
  = ["1.5"; "out_of_range"; "out_of_range"; "31"; "inf"; "-inf"; "nan";
     "1.00001"; "1e+06"; "-0"; "0"; "1"; "invalid_argument"; "0.5";
     "invalid_argument"].
Proof. vm_compute. reflexivity. Qed.
